(** * Insurance form automation: placeholder scanning and substitution

    A shallow embedding of [modules/docx_handler.py], [modules/pdf_extractor.py],
    [modules/llm_processor.py] and of the processing pipeline of [app.py],
    together with the properties of the placeholder engine.

    Conventions.
    - A Python [str] is a [string]; its characters are modelled as the
      8-bit [ascii] code points, compared by code point.
    - A Python [set] of strings is a [gset string]; a Python [dict] that is
      iterated ([data.items()]) is an association list in insertion order.
    - Objects that are mutated in place (paragraphs, runs, the document) are
      threaded explicitly: a mutating function returns the new object.
    - The libraries behind the code (python-docx, PyMuPDF, requests, json,
      Streamlit) are a record of functions, [Collaborators]; a function that
      calls them or raises runs in the monad [M], which carries the trace of
      the calls and of what the page shows, and an exception or a result.

    The definitions come first: the code, then the notions that the
    statements use.  The properties follow, by component: scanning, the
    substitution in a paragraph, the field mapping, the runs of the
    pipeline, and the order of the fields. *)

From Stdlib Require Import Ascii.
From Stdlib Require String.
From stdpp Require Import gmap strings list sorting pretty.

#[local] Set Warnings "-clear-no-such-hyp".

Local Open Scope char_scope.
Local Open Scope stdpp_scope.

(** ** Python string primitives *)

Module Str.

(** [sub in s] *)
Fixpoint contains (sub s : string) : bool :=
  match s with
  | String _ s' => String.prefix sub s || contains sub s'
  | EmptyString => String.prefix sub s
  end.

(** The scan of [s.replace(old, new)] for a non-empty [old]: left to right,
    non-overlapping.  [skip] counts the characters of the current match
    that are still to be dropped. *)
Fixpoint replace_from (old new : string) (skip : nat) (s : string) : string :=
  match s with
  | EmptyString => EmptyString
  | String c s' =>
      match skip with
      | S k => replace_from old new k s'
      | O =>
          if String.prefix old s
          then new +:+ replace_from old new (String.length old - 1) s'
          else String c (replace_from old new 0 s')
      end
  end.

(** For an empty [old], Python inserts [new] before every character and at
    the end. *)
Fixpoint intersperse (new s : string) : string :=
  match s with
  | EmptyString => new
  | String c s' => new +:+ String c (intersperse new s')
  end.

(** [s.replace(old, new)] *)
Definition replace (old new s : string) : string :=
  match old with
  | EmptyString => intersperse new s
  | String _ _ => replace_from old new 0 s
  end.

(** [sep.join(parts)] *)
Fixpoint join (sep : string) (parts : list string) : string :=
  match parts with
  | [] => EmptyString
  | [x] => x
  | x :: rest => x +:+ sep +:+ join sep rest
  end.

(** [s.startswith(p)] and [s.endswith(p)] *)
Definition startswith (p s : string) : bool := String.prefix p s.
Definition endswith (p s : string) : bool :=
  String.prefix (String.rev p) (String.rev s).

(** [s[n:]] and [s[:-n]] *)
Fixpoint drop (n : nat) (s : string) : string :=
  match n, s with
  | S k, String _ s' => drop k s'
  | _, _ => s
  end.
Definition drop_end (n : nat) (s : string) : string :=
  String.rev (drop n (String.rev s)).

(** [c.isspace()] on the modelled code points. *)
Definition isspace (c : ascii) : bool :=
  let n := nat_of_ascii c in
  (Nat.leb 9 n && Nat.leb n 13) || (Nat.leb 28 n && Nat.leb n 32)
  || Nat.eqb n 133 || Nat.eqb n 160.

Fixpoint lstrip (s : string) : string :=
  match s with
  | String c s' => if isspace c then lstrip s' else s
  | EmptyString => EmptyString
  end.

(** [s.strip()] *)
Definition strip (s : string) : string :=
  String.rev (lstrip (String.rev (lstrip s))).

(** The characters of a string, as a predicate on all of them. *)
Fixpoint all_chars (P : ascii → bool) (s : string) : bool :=
  match s with
  | EmptyString => true
  | String c s' => P c && all_chars P s'
  end.

End Str.

(** ** The document model of python-docx, as far as the handler uses it

    [doc.paragraphs] are the body paragraphs, [doc.tables] the tables with
    their rows and cells, each cell with paragraphs of its own, and
    [doc.sections] the sections, each with the paragraphs of its header and
    of its footer. *)

(** A run: a span of text with its formatting.  The formatting is opaque to
    the handler; [None] is the formatting of a run created by [add_run]. *)
Record Run := mkRun { run_text : string; run_format : option string }.

(** A paragraph is its sequence of runs ([paragraph.runs]). *)
Record Paragraph := mkParagraph { runs : list Run }.

(** [paragraph.text]: the read-only view of the paragraph as one string, the
    concatenation of the text of its runs. *)
Definition text (p : Paragraph) : string :=
  foldr (λ r acc, run_text r +:+ acc) EmptyString (runs p).

Record Cell := mkCell { cell_paragraphs : list Paragraph }.
Record Row := mkRow { cells : list Cell }.
Record Table := mkTable { rows : list Row }.
Record Section := mkSection { header : list Paragraph; footer : list Paragraph }.

Record Document := mkDocument {
  paragraphs : list Paragraph;
  tables : list Table;
  sections : list Section
}.

(** ** Regular expressions: the fragment used by the three patterns *)

Module Re.

Inductive item :=
| Lit (c : ascii)                 (** an escaped literal character *)
| GroupPlus (cls : ascii → bool). (** [([cls]+)]: the capture group, greedy *)

Definition regex := list item.

(** Greedy one-or-more with backtracking: consume as many characters of the
    class as possible, and give characters back until the rest of the
    pattern, [k], matches.  The result is the captured text and the number
    of characters consumed by the whole match. *)
Fixpoint plus_greedy (cls : ascii → bool) (k : string → option (string * nat))
    (s : string) : option (string * nat) :=
  match s with
  | EmptyString => None
  | String c s' =>
      if cls c then
        match plus_greedy cls k s' with
        | Some (cap, n) => Some (String c cap, S n)
        | None =>
            match k s' with
            | Some (_, n) => Some (String c EmptyString, S n)
            | None => None
            end
        end
      else None
  end.

(** A match anchored at the start of [s]. *)
Fixpoint match_here (r : regex) (s : string) : option (string * nat) :=
  match r with
  | [] => Some (EmptyString, 0)
  | Lit c :: r' =>
      match s with
      | String c' s' =>
          if Ascii.eqb c c'
          then match match_here r' s' with
               | Some (cap, n) => Some (cap, S n)
               | None => None
               end
          else None
      | EmptyString => None
      end
  | GroupPlus cls :: r' => plus_greedy cls (match_here r') s
  end.

(** [re.findall(r, s)] for a pattern with one group that never matches the
    empty string: the captures of the non-overlapping matches, scanning
    from the left. *)
Fixpoint findall_from (r : regex) (skip : nat) (s : string) : list string :=
  match s with
  | EmptyString => []
  | String _ s' =>
      match skip with
      | S k => findall_from r k s'
      | O =>
          match match_here r s with
          | Some (cap, n) => cap :: findall_from r (n - 1) s'
          | None => findall_from r 0 s'
          end
      end
  end.

Definition findall (r : regex) (s : string) : list string := findall_from r 0 s.

End Re.

(** ** [docx_handler.find_placeholders] *)

(** The class [[A-Z_]]. *)
Definition upper_or_underscore (c : ascii) : bool :=
  (Ascii.leb "A" c && Ascii.leb c "Z") || Ascii.eqb c "_".

(** The class [[^}]]. *)
Definition not_close_brace (c : ascii) : bool := negb (Ascii.eqb c "}").

(** [\{\{([^}]+)\}\}] *)
Definition pattern_double : Re.regex :=
  [Re.Lit "{"; Re.Lit "{"; Re.GroupPlus not_close_brace; Re.Lit "}"; Re.Lit "}"].
(** [\[([A-Z_]+)\]] *)
Definition pattern_bracket : Re.regex :=
  [Re.Lit "["; Re.GroupPlus upper_or_underscore; Re.Lit "]"].
(** [\{([A-Z_]+)\}] *)
Definition pattern_brace : Re.regex :=
  [Re.Lit "{"; Re.GroupPlus upper_or_underscore; Re.Lit "}"].

Definition patterns : list Re.regex :=
  [pattern_double; pattern_bracket; pattern_brace].

(** The inner function [extract_from_text]: it updates the set
    [placeholders] of the enclosing call. *)
Definition extract_from_text (placeholders : gset string) (txt : string)
  : gset string :=
  foldl (λ acc pattern, acc ∪ list_to_set (Re.findall pattern txt))
        placeholders patterns.

Definition scan_paragraphs (placeholders : gset string) (ps : list Paragraph)
  : gset string :=
  foldl (λ acc paragraph, extract_from_text acc (text paragraph)) placeholders ps.

Definition scan_tables (placeholders : gset string) (ts : list Table)
  : gset string :=
  foldl (λ acc table,
    foldl (λ acc row,
      foldl (λ acc cell, scan_paragraphs acc (cell_paragraphs cell))
            acc (cells row))
          acc (rows table))
        placeholders ts.

Definition scan_sections (placeholders : gset string) (ss : list Section)
  : gset string :=
  foldl (λ acc section,
    scan_paragraphs (scan_paragraphs acc (header section)) (footer section))
        placeholders ss.

(** [sorted(list(placeholders))] *)
Definition sorted (placeholders : gset string) : list string :=
  merge_sort String.le (elements placeholders).

Definition find_placeholders (doc : Document) : list string :=
  let placeholders := scan_paragraphs ∅ (paragraphs doc) in
  let placeholders := scan_tables placeholders (tables doc) in
  let placeholders := scan_sections placeholders (sections doc) in
  sorted placeholders.


(** ** Python values and dictionaries *)

(** A value of the field mapping: a [str], or any other value, of which the
    handler only uses the rendering [str(value)]. *)
Inductive pyvalue :=
| VStr (s : string)
| VOther (rendering : string).

(** [str(value)] *)
Definition py_str (v : pyvalue) : string :=
  match v with
  | VStr s => s
  | VOther rendering => rendering
  end.

(** A [dict] with string keys, in insertion order. *)
Definition dict (V : Type) : Type := list (string * V).

(** [d[k] = v]: a key that is present keeps its position. *)
Fixpoint dict_set {V} (k : string) (v : V) (d : dict V) : dict V :=
  match d with
  | [] => [(k, v)]
  | (k', v') :: d' =>
      if String.eqb k k' then (k, v) :: d' else (k', v') :: dict_set k v d'
  end.

(** [d.get(k)] *)
Fixpoint dict_get {V} (k : string) (d : dict V) : option V :=
  match d with
  | [] => None
  | (k', v') :: d' => if String.eqb k k' then Some v' else dict_get k d'
  end.

(** ** [docx_handler.replace_placeholders] *)

(** The list [formats] of [replace_in_paragraph]. *)
Definition formats (placeholder : string) : list string :=
  [ "{{" +:+ placeholder +:+ "}}";
    "[" +:+ placeholder +:+ "]";
    "{" +:+ placeholder +:+ "}" ].

(** [run.text = t]: the formatting of the run stays. *)
Definition set_run_text (t : string) (run : Run) : Run :=
  mkRun t (run_format run).

(** Lines 112-119: clear the text of every run, then write [new_text] into
    the first run, or into a run added by [add_run] when there is none. *)
Definition write_text (paragraph : Paragraph) (new_text : string) : Paragraph :=
  match set_run_text EmptyString <$> runs paragraph with
  | first :: others => mkParagraph (set_run_text new_text first :: others)
  | [] => mkParagraph [mkRun new_text None]
  end.

(** The loop [for fmt in formats] with its [break]. *)
Fixpoint try_formats (fmts : list string) (paragraph : Paragraph)
    (value : string) : Paragraph :=
  match fmts with
  | [] => paragraph
  | fmt :: rest =>
      if Str.contains fmt (text paragraph) then
        let full_text := text paragraph in
        let new_text := Str.replace fmt value full_text in
        write_text paragraph new_text
      else try_formats rest paragraph value
  end.

Definition replace_in_paragraph (paragraph : Paragraph) (placeholder : string)
    (value : pyvalue) : Paragraph :=
  try_formats (formats placeholder) paragraph (py_str value).

(** One iteration of the loop over [data.items()]: the field is replaced in
    the body paragraphs, in the tables and in the headers and footers. *)
Definition replace_field (doc : Document) (placeholder : string)
    (value : pyvalue) : Document :=
  let rip := λ paragraph, replace_in_paragraph paragraph placeholder value in
  {| paragraphs := rip <$> paragraphs doc;
     tables :=
       (λ table, mkTable ((λ row, mkRow ((λ cell,
          mkCell (rip <$> cell_paragraphs cell)) <$> cells row)) <$> rows table))
       <$> tables doc;
     sections :=
       (λ section, mkSection (rip <$> header section) (rip <$> footer section))
       <$> sections doc |}.

Definition replace_placeholders (doc : Document) (data : dict pyvalue)
  : Document :=
  foldl (λ doc item, replace_field doc item.1 item.2) doc data.

(** ** Collaborators, exceptions and the trace of a run *)

(** An uploaded file. *)
Record Upload := mkUpload { upload_name : string; upload_bytes : string }.

(** What [json.loads] returns: an object, or a value of another type (a
    list, a string, a number...), which has no [get]. *)
Inductive json :=
| JObject (members : gmap string pyvalue)
| JOther (type_name : string).

(** The result of the request of [call_openrouter_api]. *)
Inductive api_result :=
| RequestFailed (msg : string)   (** a [requests] exception *)
| UnexpectedFormat (msg : string) (** a [KeyError] or [IndexError] *)
| Content (content : string).

(** The code outside the repository.  A failure is the message of the
    exception that the library raises. *)
Record Collaborators := mkCollaborators {
  (** [Document(docx_file)] of python-docx *)
  docx_open : string → string + Document;
  (** [fitz.open] and [page.get_text()]: the text of every page *)
  fitz_pages : string → string + list string;
  (** [call_openrouter_api]: the request and the reading of its answer *)
  openrouter : string → string → api_result;
  (** [json.loads] *)
  json_loads : string → string + json
}.

Inductive exn :=
| Exception (msg : string)  (** an [Exception] with [str(e) = msg] *)
| StopException.            (** raised by [st.stop()]; not an [Exception] *)

Inductive ui_error :=
| ApiKeyRequired
| TemplateRequired
| ReportsRequired
| NoPlaceholdersFound
| ErrorOccurred (msg : string).

Inductive event :=
| OpenDocx (bytes : string)
| OpenPdf (name : string)
| CallApi (prompt : string)
| Step (n : nat)                (** the status line "Step n/4" *)
| UiError (e : ui_error)      (** [st.error] *)
| OfferDownload (doc : Document). (** [st.download_button] *)

(** A computation that may raise and that appends to the trace. *)
Definition M (A : Type) : Type := list event → list event * (exn + A).

Definition ret {A} (a : A) : M A := λ tr, (tr, inr a).
Definition bind {A B} (m : M A) (f : A → M B) : M B :=
  λ tr, match m tr with
        | (tr', inr a) => f a tr'
        | (tr', inl e) => (tr', inl e)
        end.
Definition raise {A} (e : exn) : M A := λ tr, (tr, inl e).
Definition emit (ev : event) : M unit := λ tr, (tr ++ [ev], inr tt).

(** [try: m except Exception as e: h(str(e))]: a [StopException] passes. *)
Definition try_except {A} (m : M A) (h : string → M A) : M A :=
  λ tr, match m tr with
        | (tr', inl (Exception msg)) => h msg tr'
        | r => r
        end.

(** The result of a collaborator: its failure is raised. *)
Definition lift {A} (r : string + A) : M A :=
  match r with
  | inl msg => raise (Exception msg)
  | inr a => ret a
  end.

#[global] Instance M_ret : MRet M := @ret.
#[global] Instance M_bind : MBind M := λ A B f m, bind m f.

Definition run {A} (m : M A) : list event * (exn + A) := m [].

(** [for x in l: body] over an accumulator *)
Fixpoint for_each {A S} (l : list A) (body : S → A → M S) (s : S) : M S :=
  match l with
  | [] => ret s
  | x :: l' => s' ← body s x; for_each l' body s'
  end.

(** The newline and the double quote. *)
Definition nl : string := String "010" EmptyString.
Definition dq : string := String "034" EmptyString.

(** ** [docx_handler.load_template] *)

Definition load_template (w : Collaborators) (docx_file : Upload) : M Document :=
  try_except
    (emit (OpenDocx (upload_bytes docx_file));;
     lift (docx_open w (upload_bytes docx_file)))
    (λ msg, raise (Exception ("Error loading template: " +:+ msg))).

(** ** [pdf_extractor] *)

(** The entry of [text_content] for the page with index [page_num]. *)
Definition page_entry (page_num : nat) (txt : string) : string :=
  if decide (Str.strip txt = EmptyString)
  then "--- Page " +:+ pretty (page_num + 1) +:+ " ---" +:+ nl
       +:+ "[Image-based page - OCR needed]"
  else "--- Page " +:+ pretty (page_num + 1) +:+ " ---" +:+ nl +:+ txt.

Definition extract_text_from_pdf (w : Collaborators) (pdf_file : Upload)
  : M string :=
  try_except
    (emit (OpenPdf (upload_name pdf_file));;
     pages ← lift (fitz_pages w (upload_bytes pdf_file));
     ret (Str.join (nl +:+ nl) (imap page_entry pages)))
    (λ msg, raise (Exception ("Error extracting text from PDF: " +:+ msg))).

Definition extract_text_from_multiple_pdfs (w : Collaborators)
    (pdf_files : list Upload) : M (dict string) :=
  for_each pdf_files
    (λ results pdf_file,
       let filename := upload_name pdf_file in
       try_except
         (txt ← extract_text_from_pdf w pdf_file;
          ret (dict_set filename txt results))
         (λ msg, ret (dict_set filename ("Error: " +:+ msg) results)))
    [].

(** ** [llm_processor] *)

Definition call_openrouter_api (w : Collaborators) (prompt api_key : string)
  : M string :=
  emit (CallApi prompt);;
  match openrouter w prompt api_key with
  | RequestFailed msg => raise (Exception ("API request failed: " +:+ msg))
  | UnexpectedFormat msg =>
      raise (Exception ("Unexpected API response format: " +:+ msg))
  | Content content => ret content
  end.

(** The prompt of [extract_fields_from_text]. *)
Definition prompt_of (placeholders : list string) (extracted_text : string)
  : string :=
  Str.join nl [
    "You are an AI assistant helping to extract information from insurance photo reports to fill out a claim form.";
    "";
    "I have the following fields that need to be filled:";
    Str.join ", " placeholders;
    "";
    "Here is the text extracted from the insurance photo reports:";
    "";
    "---";
    extracted_text;
    "---";
    "";
    "Please analyze the text and extract the appropriate value for each field. Return your response as a JSON object with the field names as keys and the extracted values as values.";
    "";
    "If a field cannot be found in the text, use " +:+ dq +:+ "Not Found"
      +:+ dq +:+ " as the value.";
    "";
    "Important guidelines:";
    "- Extract exact values when available";
    "- For dates, use a consistent format (YYYY-MM-DD if possible)";
    "- For monetary amounts, include currency symbols";
    "- For names, use full names if available";
    "- Be concise and accurate";
    "";
    "Return ONLY the JSON object, no additional text or explanation.";
    "";
    "Example format:";
    "{";
    "    " +:+ dq +:+ "ClaimantName" +:+ dq +:+ ": " +:+ dq +:+ "John Doe" +:+ dq +:+ ",";
    "    " +:+ dq +:+ "AccidentDate" +:+ dq +:+ ": " +:+ dq +:+ "2025-01-15" +:+ dq +:+ ",";
    "    " +:+ dq +:+ "DamageEstimate" +:+ dq +:+ ": " +:+ dq +:+ "$4,200" +:+ dq;
    "}" ].

(** Lines 105-112: the answer without its code fence. *)
Definition clean_response (response : string) : string :=
  let response := Str.strip response in
  let response :=
    if Str.startswith "```json" response then Str.drop 7 response else response in
  let response :=
    if Str.startswith "```" response then Str.drop 3 response else response in
  let response :=
    if Str.endswith "```" response then Str.drop_end 3 response else response in
  Str.strip response.

(** The sentinel of a field that the answer does not have. *)
Definition not_found : pyvalue := VStr "Not Found".

(** [extracted_data.get(placeholder, "Not Found")]; a value that is not a
    [dict] has no [get]. *)
Definition get_or_not_found (extracted_data : json) (placeholder : string)
  : M pyvalue :=
  match extracted_data with
  | JObject members => ret (default not_found (members !! placeholder))
  | JOther type_name =>
      raise (Exception ("'" +:+ type_name +:+ "' object has no attribute 'get'"))
  end.

(** The handler [except Exception as e] of [extract_fields_from_text]. *)
Definition other_exception {A} (msg : string) : M A :=
  raise (Exception ("Error during field extraction: " +:+ msg)).

(** The [try] block has two handlers: a [json.JSONDecodeError], which only
    [json.loads] raises, becomes "Failed to parse...", and any other
    exception of the block becomes "Error during field extraction...". *)
Definition extract_fields_from_text (w : Collaborators)
    (placeholders : list string) (extracted_text api_key : string)
  : M (dict pyvalue) :=
  let prompt := prompt_of placeholders extracted_text in
  response ← try_except (call_openrouter_api w prompt api_key) other_exception;
  let response := clean_response response in
  match json_loads w response with
  | inl msg =>
      raise (Exception ("Failed to parse LLM response as JSON: " +:+ msg
                        +:+ nl +:+ "Response: " +:+ response))
  | inr extracted_data =>
      try_except
        (for_each placeholders
           (λ result placeholder,
              value ← get_or_not_found extracted_data placeholder;
              ret (dict_set placeholder value result))
           [])
        other_exception
  end.

(** ** The processing pipeline of [app.py] *)

(** The separator between the reports of a combined source text. *)
Definition combined_separator : string :=
  nl +:+ nl +:+ "=== COMBINED REPORTS ===" +:+ nl +:+ nl.

Definition combine (all_texts : dict string) : string :=
  Str.join combined_separator
    ((λ item, "File: " +:+ item.1 +:+ nl +:+ item.2) <$> all_texts).

(** Step 2: the source text of the reports. *)
Definition source_text (w : Collaborators) (report_files : list Upload)
  : M string :=
  match report_files with
  | [report] => extract_text_from_pdf w report
  | _ =>
      all_texts ← extract_text_from_multiple_pdfs w report_files;
      ret (combine all_texts)
  end.

(** The body of the [try] of the pipeline. *)
Definition pipeline (w : Collaborators) (api_key : string)
    (template_file : Upload) (report_files : list Upload) : M unit :=
  emit (Step 1);;
  doc ← load_template w template_file;
  let placeholders := find_placeholders doc in
  (match placeholders with
   | [] => emit (UiError NoPlaceholdersFound);; raise StopException
   | _ => ret ()
   end);;
  emit (Step 2);;
  extracted_text ← source_text w report_files;
  emit (Step 3);;
  extracted_data ← extract_fields_from_text w placeholders extracted_text api_key;
  emit (Step 4);;
  let filled_doc := replace_placeholders doc extracted_data in
  emit (OfferDownload filled_doc).

(** What the script does when the button is pressed. *)
Definition process (w : Collaborators) (api_key : string)
    (template_file : option Upload) (report_files : list Upload) : M unit :=
  let errors :=
    (if decide (api_key = EmptyString) then [ApiKeyRequired] else [])
    ++ match template_file with None => [TemplateRequired] | Some _ => [] end
    ++ match report_files with [] => [ReportsRequired] | _ :: _ => [] end in
  match errors, template_file with
  | [], Some template_file =>
      try_except (pipeline w api_key template_file report_files)
        (λ msg, emit (UiError (ErrorOccurred msg)))
  | _, _ => for_each errors (λ _ error, emit (UiError error)) ()
  end.

(** The documents offered for download in a trace. *)
Definition downloads (tr : list event) : list Document :=
  omap (λ ev, match ev with OfferDownload d => Some d | _ => None end) tr.

(** The prompts sent to the extraction collaborator in a trace. *)
Definition api_calls (tr : list event) : list string :=
  omap (λ ev, match ev with CallApi p => Some p | _ => None end) tr.


(** ** [llm_processor.validate_api_key] *)

(** [try: m except: h]: a bare [except] catches every exception. *)
Definition try_except_all {A} (m : M A) (h : M A) : M A :=
  λ tr, match m tr with
        | (tr', inl _) => h tr'
        | r => r
        end.

(** The prompt of the test request. *)
Definition test_prompt : string := "Say 'OK' if you receive this message.".

Definition validate_api_key (w : Collaborators) (api_key : string) : M bool :=
  try_except_all
    (response ← call_openrouter_api w test_prompt api_key;
     ret (bool_decide (0 < String.length response)))
    (ret false).

(** ** Notions used by the statements *)

(** The paragraphs of the three kinds of region. *)
Definition in_body (p : Paragraph) (doc : Document) : Prop :=
  p ∈ paragraphs doc.
Definition in_table_cell (p : Paragraph) (doc : Document) : Prop :=
  ∃ t r c, t ∈ tables doc ∧ r ∈ rows t ∧ c ∈ cells r ∧ p ∈ cell_paragraphs c.
Definition in_header_or_footer (p : Paragraph) (doc : Document) : Prop :=
  ∃ s, s ∈ sections doc ∧ (p ∈ header s ∨ p ∈ footer s).

Definition in_document (p : Paragraph) (doc : Document) : Prop :=
  in_body p doc ∨ in_table_cell p doc ∨ in_header_or_footer p doc.

(** [name] is a capture of one of the three patterns on [txt]. *)
Definition captured (name txt : string) : Prop :=
  ∃ pattern, pattern ∈ patterns ∧ name ∈ Re.findall pattern txt.

(** The four delimiter characters of the placeholder syntaxes. *)
Definition is_delimiter (c : ascii) : bool :=
  Ascii.eqb c "{" || Ascii.eqb c "}" || Ascii.eqb c "[" || Ascii.eqb c "]".

(** A text without any delimiter character. *)
Definition plain (s : string) : bool :=
  Str.all_chars (λ c, negb (is_delimiter c)) s.

(** The head of the remaining input is outside the class (or the input is
    exhausted): the greedy run stops there. *)
Definition stops (cls : ascii → bool) (rest : string) : Prop :=
  match rest with
  | String c _ => cls c = false
  | EmptyString => True
  end.

(** The three literal tokens of a field, in the order of [formats]. *)
Definition double_token (placeholder : string) : string :=
  "{{" +:+ placeholder +:+ "}}".
Definition bracket_token (placeholder : string) : string :=
  "[" +:+ placeholder +:+ "]".
Definition brace_token (placeholder : string) : string :=
  "{" +:+ placeholder +:+ "}".

(** The first of the three tokens of a field that occurs in a text. *)
Definition matching_form (placeholder txt : string) : option string :=
  if Str.contains (double_token placeholder) txt
  then Some (double_token placeholder)
  else if Str.contains (bracket_token placeholder) txt
  then Some (bracket_token placeholder)
  else if Str.contains (brace_token placeholder) txt
  then Some (brace_token placeholder)
  else None.

(** The pieces of [s] between the occurrences of [old] that the scan of
    [Str.replace_from] replaces, read with the same scan. *)
Fixpoint pieces_from (old : string) (skip : nat) (s : string) : list string :=
  match s with
  | EmptyString => [EmptyString]
  | String c s' =>
      match skip with
      | S k => pieces_from old k s'
      | O =>
          if String.prefix old s
          then EmptyString :: pieces_from old (String.length old - 1) s'
          else match pieces_from old 0 s' with
               | piece :: rest => String c piece :: rest
               | [] => [String c EmptyString]
               end
      end
  end.

(** The loop that fills [result] from an answer that is an object. *)
Definition fill (members : gmap string pyvalue) (placeholders : list string)
    (result : dict pyvalue) : dict pyvalue :=
  foldl (λ result placeholder,
           dict_set placeholder (default not_found (members !! placeholder)) result)
        result placeholders.

(** The text of a page list, as [extract_text_from_pdf] returns it. *)
Definition pdf_text (pages : list string) : string :=
  Str.join (nl +:+ nl) (imap page_entry pages).

(** What [extract_text_from_multiple_pdfs] records for a report: its text,
    or the message of the failure. *)
Definition recorded_text (w : Collaborators) (pdf_file : Upload) : string :=
  match fitz_pages w (upload_bytes pdf_file) with
  | inr pages => pdf_text pages
  | inl msg => "Error: " +:+ "Error extracting text from PDF: " +:+ msg
  end.

(** The dictionary that [extract_text_from_multiple_pdfs] builds. *)
Definition recorded (w : Collaborators) (pdf_files : list Upload)
    (results : dict string) : dict string :=
  foldl (λ results pdf_file,
           dict_set (upload_name pdf_file) (recorded_text w pdf_file) results)
        results pdf_files.

(** The number of positions of [s] at which [sub] occurs. *)
Fixpoint occurrences (sub s : string) : nat :=
  match s with
  | String _ s' => (if String.prefix sub s then 1 else 0) + occurrences sub s'
  | EmptyString => if String.prefix sub s then 1 else 0
  end.

(** The paragraphs that the scanner and the substitution visit, in the order
    of their loops: body, table cells row by row, then the header and the
    footer of every section. *)
Definition document_paragraphs (doc : Document) : list Paragraph :=
  paragraphs doc
  ++ (table ← tables doc; row ← rows table; cell ← cells row; cell_paragraphs cell)
  ++ (section ← sections doc; header section ++ footer section).

(** No pattern matches anywhere in the document. *)
Definition no_match (doc : Document) : Prop :=
  Forall (λ p, Forall (λ pattern, Re.findall pattern (text p) = []) patterns)
         (document_paragraphs doc).

(** The line between two combined reports. *)
Definition separator_line : string := "=== COMBINED REPORTS ===".

(** *** Texts made of plain text and well-delimited placeholders *)

Inductive form := Double | Bracket | Brace.

#[global] Instance form_eq_dec : EqDecision form.
Proof. solve_decision. Defined.

(** The token of a field in a form: the entries of [formats]. *)
Definition token (f : form) (name : string) : string :=
  match f with
  | Double => double_token name
  | Bracket => bracket_token name
  | Brace => brace_token name
  end.

(** A piece of text: literal text, or a placeholder in one of the forms. *)
Inductive piece :=
| Literal (s : string)
| Slot (f : form) (name : string).

#[global] Instance piece_eq_dec : EqDecision piece.
Proof. solve_decision. Defined.

Definition render_piece (g : piece) : string :=
  match g with
  | Literal s => s
  | Slot f name => token f name
  end.

Definition render (gs : list piece) : string :=
  foldr (λ g acc, render_piece g +:+ acc) EmptyString gs.

(** The literal text and the names have no delimiter character. *)
Definition plain_piece (g : piece) : Prop :=
  match g with
  | Literal s => plain s = true
  | Slot _ name => plain name = true
  end.

(** A text that is made of plain text and of placeholders with plain names. *)
Definition well_delimited (txt : string) : Prop :=
  ∃ gs, Forall plain_piece gs ∧ txt = render gs.

(** The form in which a field is replaced among the pieces: the first of
    the three in which it is present. *)
Definition present_form (name : string) (gs : list piece) : option form :=
  if decide (Slot Double name ∈ gs) then Some Double
  else if decide (Slot Bracket name ∈ gs) then Some Bracket
  else if decide (Slot Brace name ∈ gs) then Some Brace
  else None.

(** The placeholder [Slot f name] becomes the value. *)
Definition fill_slot (f : form) (name value : string) (g : piece) : piece :=
  if decide (g = Slot f name) then Literal value else g.

(** The substitution of one field, on the pieces. *)
Definition substitute (name value : string) (gs : list piece) : list piece :=
  match present_form name gs with
  | Some f => fill_slot f name value <$> gs
  | None => gs
  end.

(** The substitution of one field, on the text of a paragraph. *)
Definition substitute_text (name value txt : string) : string :=
  match matching_form name txt with
  | Some tok => Str.replace tok value txt
  | None => txt
  end.

(** No occurrence of [tok] starts inside [s], when [s] is followed by
    [rest]. *)
Fixpoint free_start (tok s rest : string) : bool :=
  match s with
  | EmptyString => true
  | String _ s' => negb (String.prefix tok (s +:+ rest)) && free_start tok s' rest
  end.

(** A character that opens a placeholder. *)
Definition is_opener (c : ascii) : bool := Ascii.eqb c "{" || Ascii.eqb c "[".

(** The substitution of a whole mapping, on the pieces. *)
Definition substitute_all (data : dict pyvalue) (gs : list piece) : list piece :=
  foldl (λ gs item, substitute item.1 (py_str item.2) gs) gs data.

(** The field names and the values of a mapping have no delimiter
    character. *)
Definition plain_mapping (data : dict pyvalue) : Prop :=
  Forall (λ item, plain item.1 = true ∧ plain (py_str item.2) = true) data.

(** *** Notions of the further properties *)

(** A function on paragraphs, applied to every paragraph of a document. *)
Definition map_paragraphs (f : Paragraph → Paragraph) (doc : Document)
  : Document :=
  {| paragraphs := f <$> paragraphs doc;
     tables :=
       (λ table, mkTable ((λ row, mkRow ((λ cell,
          mkCell (f <$> cell_paragraphs cell)) <$> cells row)) <$> rows table))
       <$> tables doc;
     sections :=
       (λ section, mkSection (f <$> header section) (f <$> footer section))
       <$> sections doc |}.

(** The runs of [q] are the runs of [p] with other texts: as many runs, with
    the same formatting in the same order; or [p] has no run and [q] has the
    one run that [add_run] makes. *)
Definition same_formatting (p q : Paragraph) : Prop :=
  run_format <$> runs q = run_format <$> runs p
  ∨ (runs p = [] ∧ ∃ new_text, runs q = [mkRun new_text None]).

(** A text that starts with a character that is no white space. *)
Definition starts_solid (s : string) : Prop :=
  match s with
  | String c _ => Str.isspace c = false
  | EmptyString => False
  end.

(** A text, not empty, without white space at either end. *)
Definition trimmed (s : string) : Prop :=
  starts_solid s ∧ starts_solid (String.rev s).

(** ** Scanning: what the result of [find_placeholders] is *)

Section scan_membership.

Lemma elem_of_foldl_acc {B} (f : gset string → B → gset string)
    (Q : B → string → Prop) :
  (∀ acc b x, x ∈ f acc b ↔ x ∈ acc ∨ Q b x) →
  ∀ l acc x, x ∈ foldl f acc l ↔ x ∈ acc ∨ ∃ b, b ∈ l ∧ Q b x.
Proof.
  intros Hf l. induction l as [|b l IH]; intros acc x; simpl.
  - split; [auto|]. intros [?|(b & Hb & _)]; [done|]. by apply elem_of_nil in Hb.
  - rewrite IH, Hf. split.
    + intros [[?|?]|(b' & ? & ?)]; [by left| |].
      * right. exists b. split; [apply list_elem_of_here|done].
      * right. exists b'. split; [by apply list_elem_of_further|done].
    + intros [?|(b' & Hb' & ?)]; [by left; left|].
      apply elem_of_cons in Hb' as [->|?]; [by left; right|].
      right. by exists b'.
Qed.

Lemma elem_of_extract_from_text acc txt x :
  x ∈ extract_from_text acc txt ↔ x ∈ acc ∨ captured x txt.
Proof.
  unfold extract_from_text, captured.
  apply (elem_of_foldl_acc _ (λ pattern x, x ∈ Re.findall pattern txt)).
  intros acc' pattern y. rewrite elem_of_union, elem_of_list_to_set. tauto.
Qed.

Lemma elem_of_scan_paragraphs acc ps x :
  x ∈ scan_paragraphs acc ps ↔
  x ∈ acc ∨ ∃ p, p ∈ ps ∧ captured x (text p).
Proof.
  unfold scan_paragraphs.
  apply (elem_of_foldl_acc _ (λ p x, captured x (text p))).
  intros. apply elem_of_extract_from_text.
Qed.

Lemma elem_of_scan_tables acc ts x :
  x ∈ scan_tables acc ts ↔
  x ∈ acc ∨ ∃ t r c p, t ∈ ts ∧ r ∈ rows t ∧ c ∈ cells r
                       ∧ p ∈ cell_paragraphs c ∧ captured x (text p).
Proof.
  unfold scan_tables.
  rewrite (elem_of_foldl_acc _ (λ t x, ∃ r c p, r ∈ rows t ∧ c ∈ cells r
                       ∧ p ∈ cell_paragraphs c ∧ captured x (text p))).
  { naive_solver. }
  intros acc1 t y.
  rewrite (elem_of_foldl_acc _ (λ r x, ∃ c p, c ∈ cells r
                       ∧ p ∈ cell_paragraphs c ∧ captured x (text p))).
  { naive_solver. }
  intros acc2 r z.
  rewrite (elem_of_foldl_acc _ (λ c x, ∃ p,
                       p ∈ cell_paragraphs c ∧ captured x (text p))).
  { naive_solver. }
  intros. apply elem_of_scan_paragraphs.
Qed.

Lemma elem_of_scan_sections acc ss x :
  x ∈ scan_sections acc ss ↔
  x ∈ acc ∨ ∃ s p, s ∈ ss ∧ (p ∈ header s ∨ p ∈ footer s)
                   ∧ captured x (text p).
Proof.
  unfold scan_sections.
  rewrite (elem_of_foldl_acc _ (λ s x, ∃ p, (p ∈ header s ∨ p ∈ footer s)
                   ∧ captured x (text p))).
  { naive_solver. }
  intros acc1 s y. rewrite !elem_of_scan_paragraphs. naive_solver.
Qed.

End scan_membership.

Lemma elem_of_sorted (ph : gset string) x : x ∈ sorted ph ↔ x ∈ ph.
Proof. unfold sorted. by rewrite merge_sort_Permutation, elem_of_elements. Qed.

Lemma NoDup_sorted (ph : gset string) : NoDup (sorted ph).
Proof. unfold sorted. rewrite merge_sort_Permutation. apply NoDup_elements. Qed.

Lemma sorted_is_sorted (ph : gset string) : StronglySorted String.le (sorted ph).
Proof. apply StronglySorted_merge_sort; apply _. Qed.

(** The list that [sorted] returns does not depend on the order in which the
    set hands out its elements. *)
Lemma sorted_unique (ph : gset string) (l : list string) :
  l ≡ₚ elements ph → Sorted String.le l → l = sorted ph.
Proof.
  intros Hp Hs. apply (Sorted_unique String.le); [done| |].
  - apply Sorted_merge_sort. apply _.
  - unfold sorted. by rewrite merge_sort_Permutation.
Qed.

Lemma elem_of_document_paragraphs p doc :
  p ∈ document_paragraphs doc ↔ in_document p doc.
Proof.
  unfold document_paragraphs, in_document, in_body, in_table_cell,
    in_header_or_footer.
  rewrite !elem_of_app, !list_elem_of_bind.
  repeat (apply or_iff_compat_l || apply or_iff_compat_r).
  split.
  - intros [(t & Hr & ?)|(s & ?%elem_of_app & ?)]; [left|right; by exists s].
    apply list_elem_of_bind in Hr as (r & Hc & ?).
    apply list_elem_of_bind in Hc as (c & ? & ?). by exists t, r, c.
  - intros [(t & r & c & ? & ? & ? & ?)|(s & ? & ?)].
    + left. exists t. split; [|done]. apply list_elem_of_bind.
      exists r. split; [|done]. apply list_elem_of_bind. by exists c.
    + right. exists s. by rewrite elem_of_app.
Qed.

Lemma elem_of_find_placeholders doc name :
  name ∈ find_placeholders doc ↔
  ∃ p, in_document p doc ∧ captured name (text p).
Proof.
  unfold find_placeholders.
  rewrite elem_of_sorted, elem_of_scan_sections, elem_of_scan_tables,
    elem_of_scan_paragraphs.
  unfold in_document, in_body, in_table_cell, in_header_or_footer.
  split.
  - intros [[[H|(p & ? & ?)]|(t & r & c & p & ? & ? & ? & ? & ?)]
           |(s & p & ? & ? & ?)].
    + by apply not_elem_of_empty in H.
    + exists p. auto.
    + exists p. split; [|done]. right. left. by exists t, r, c.
    + exists p. split; [|done]. right. right. by exists s.
  - intros (p & [?|[(t & r & c & ? & ? & ? & ?)|(s & ? & ?)]] & ?).
    + left. left. right. by exists p.
    + left. right. by exists t, r, c, p.
    + right. by exists s, p.
Qed.

Lemma find_placeholders_no_match doc :
  no_match doc → find_placeholders doc = [].
Proof.
  intros Hno. destruct (find_placeholders doc) as [|name names] eqn:Hfp; [done|].
  assert (name ∈ find_placeholders doc) as Hin by (rewrite Hfp; apply list_elem_of_here).
  apply elem_of_find_placeholders in Hin as (p & Hp & pattern & Hpat & Hcap).
  apply elem_of_document_paragraphs in Hp.
  unfold no_match in Hno. rewrite Forall_forall in Hno.
  specialize (Hno p Hp). rewrite Forall_forall in Hno.
  rewrite (Hno pattern Hpat) in Hcap. by apply elem_of_nil in Hcap.
Qed.

(** C1: [find_placeholders] walks the body paragraphs, the paragraphs of the
    table cells and the header and footer paragraphs of every section,
    applies the three patterns, [\{\{([^}]+)\}\}], [\[([A-Z_]+)\]] and
    [\{([A-Z_]+)\}], to the text of each of them, and returns the captured
    names without duplicates, in lexicographic order.  The three patterns
    are written out in the statement. *)
Theorem find_placeholders_sorted_set (doc : Document) :
  let upper := λ c : ascii,
    (Ascii.leb "A" c && Ascii.leb c "Z") || Ascii.eqb c "_" in
  let double_braces :=
    [Re.Lit "{"; Re.Lit "{"; Re.GroupPlus (λ c, negb (Ascii.eqb c "}"));
     Re.Lit "}"; Re.Lit "}"] in
  let brackets := [Re.Lit "["; Re.GroupPlus upper; Re.Lit "]"] in
  let braces := [Re.Lit "{"; Re.GroupPlus upper; Re.Lit "}"] in
  StronglySorted String.le (find_placeholders doc)
  ∧ NoDup (find_placeholders doc)
  ∧ ∀ name, name ∈ find_placeholders doc ↔
            ∃ p, (p ∈ paragraphs doc
                  ∨ (∃ t r c, t ∈ tables doc ∧ r ∈ rows t ∧ c ∈ cells r
                              ∧ p ∈ cell_paragraphs c)
                  ∨ (∃ s, s ∈ sections doc ∧ (p ∈ header s ∨ p ∈ footer s)))
                 ∧ (name ∈ Re.findall double_braces (text p)
                    ∨ name ∈ Re.findall brackets (text p)
                    ∨ name ∈ Re.findall braces (text p)).
Proof.
  intros upper double_braces brackets braces.
  split; [apply sorted_is_sorted|]. split; [apply NoDup_sorted|].
  intros name. rewrite elem_of_find_placeholders. split.
  - intros (p & Hp & pattern & Hpattern & Hname). exists p. split; [exact Hp|].
    unfold patterns in Hpattern.
    apply elem_of_cons in Hpattern as [->|Hpattern]; [by left|].
    apply elem_of_cons in Hpattern as [->|Hpattern]; [by right; left|].
    apply list_elem_of_singleton in Hpattern as ->. by right; right.
  - intros (p & Hp & Hname). exists p. split; [exact Hp|].
    destruct Hname as [Hname|[Hname|Hname]].
    + exists pattern_double. split; [apply list_elem_of_here|exact Hname].
    + exists pattern_bracket.
      split; [apply list_elem_of_further, list_elem_of_here|exact Hname].
    + exists pattern_brace.
      split; [do 2 apply list_elem_of_further; apply list_elem_of_here|exact Hname].
Qed.

(** A template with placeholders of the three syntaxes in the three regions,
    one of them split over two runs, one of them twice, and with a name in
    lower case between brackets and between single braces. *)
Lemma find_placeholders_sorted_set_witness :
  let doc :=
    mkDocument
      [mkParagraph [mkRun "Name: [CLAIMANT" (Some "bold"); mkRun "NAME] [name]" None]]
      [mkTable [mkRow [mkCell [mkParagraph [mkRun "{{Accident Date}}" None]];
                       mkCell [mkParagraph [mkRun "{AMOUNT} {draft}" None]]]]]
      [mkSection [mkParagraph [mkRun "{{policy}}" None]]
                 [mkParagraph [mkRun "[AMOUNT]" None]]] in
  find_placeholders doc = ["AMOUNT"; "Accident Date"; "CLAIMANTNAME"; "policy"]
  ∧ StronglySorted String.le (find_placeholders doc)
  ∧ NoDup (find_placeholders doc)
  ∧ "CLAIMANTNAME" ∈ find_placeholders doc
  ∧ "Accident Date" ∈ find_placeholders doc
  ∧ "AMOUNT" ∈ find_placeholders doc
  ∧ "policy" ∈ find_placeholders doc.
Proof.
  intros doc. split; [vm_compute; reflexivity|].
  pose proof (find_placeholders_sorted_set doc) as Hscan. cbv zeta in Hscan.
  destruct Hscan as (Hsorted & Hnodup & Hnames).
  split; [exact Hsorted|]. split; [exact Hnodup|].
  split; [|split; [|split]]; apply Hnames.
  - eexists. split; [left; apply list_elem_of_here|].
    right; left. vm_compute. apply list_elem_of_here.
  - eexists. split.
    + right; left. eexists _, _, _. split; [apply list_elem_of_here|].
      split; [apply list_elem_of_here|].
      split; [apply list_elem_of_here|apply list_elem_of_here].
    + left. vm_compute. apply list_elem_of_here.
  - eexists. split.
    + right; left. eexists _, _, _. split; [apply list_elem_of_here|].
      split; [apply list_elem_of_here|].
      split; [apply list_elem_of_further, list_elem_of_here|apply list_elem_of_here].
    + right; right. vm_compute. apply list_elem_of_here.
  - eexists. split.
    + right; right. eexists. split; [apply list_elem_of_here|].
      left. apply list_elem_of_here.
    + left. vm_compute. apply list_elem_of_here.
Defined.

(** ** Strings: basic facts *)

Lemma app_cons c (s t : string) : String c s +:+ t = String c (s +:+ t).
Proof. reflexivity. Qed.
Lemma app_empty_l (s : string) : EmptyString +:+ s = s.
Proof. reflexivity. Qed.
Lemma app_empty_r (s : string) : s +:+ EmptyString = s.
Proof. induction s as [|c s IH]; [done|]. by rewrite app_cons, IH. Qed.
Lemma app_assoc_str (s t u : string) : (s +:+ t) +:+ u = s +:+ t +:+ u.
Proof. induction s as [|c s IH]; [done|]. by rewrite !app_cons, IH. Qed.
Lemma length_app_str (s t : string) :
  String.length (s +:+ t) = String.length s + String.length t.
Proof. induction s as [|c s IH]; [done|]. rewrite app_cons. simpl. by rewrite IH. Qed.

Create Rewrite HintDb str.
#[export] Hint Rewrite app_cons app_empty_l app_empty_r app_assoc_str : str.

Lemma all_chars_app P (s t : string) :
  Str.all_chars P (s +:+ t) = Str.all_chars P s && Str.all_chars P t.
Proof.
  induction s as [|c s IH]; [done|]. rewrite app_cons. simpl.
  rewrite IH. by rewrite andb_assoc.
Qed.

(** ** The regular-expression engine on the three patterns *)

Section regex_facts.

Lemma plus_greedy_capture cls k s cap n :
  Re.plus_greedy cls k s = Some (cap, n) →
  cap ≠ EmptyString ∧ Str.all_chars cls cap = true.
Proof.
  revert cap n. induction s as [|c s IH]; intros cap n; simpl; [done|].
  destruct (cls c) eqn:Hc; [|done].
  destruct (Re.plus_greedy cls k s) as [[cap' n']|] eqn:Hrec.
  - intros [= <- <-]. destruct (IH _ _ eq_refl) as [_ Hall].
    split; [done|]. simpl. by rewrite Hc, Hall.
  - destruct (k s) as [[? n']|]; [|done].
    intros [= <- <-]. split; [done|]. simpl. by rewrite Hc.
Qed.

Lemma plus_greedy_stops cls k rest :
  stops cls rest → Re.plus_greedy cls k rest = None.
Proof. destruct rest as [|c rest]; simpl; [done|]. by intros ->. Qed.

(** When the continuation cannot start with a character of the class, no
    character is given back: the group captures the whole run. *)
Lemma plus_greedy_run cls k name rest :
  (∀ c s, cls c = true → k (String c s) = None) →
  name ≠ EmptyString → Str.all_chars cls name = true → stops cls rest →
  Re.plus_greedy cls k (name +:+ rest) =
    match k rest with
    | Some (_, n) => Some (name, String.length name + n)
    | None => None
    end.
Proof.
  intros Hk Hne Hall Hstop. induction name as [|c name IH]; [done|].
  simpl in Hall. apply andb_prop in Hall as [Hc Hall].
  rewrite app_cons. simpl. rewrite Hc.
  destruct name as [|c' name].
  - rewrite app_empty_l, (plus_greedy_stops _ _ _ Hstop).
    by destruct (k rest) as [[? n]|].
  - rewrite (IH ltac:(done) Hall).
    destruct (k rest) as [[? n]|]; [done|].
    rewrite app_cons, Hk; [done|].
    simpl in Hall. by apply andb_prop in Hall as [? _].
Qed.

Lemma match_here_lit c r s :
  Re.match_here (Re.Lit c :: r) (String c s) =
    match Re.match_here r s with
    | Some (cap, n) => Some (cap, S n)
    | None => None
    end.
Proof. simpl. by rewrite Ascii.eqb_refl. Qed.

Lemma match_here_group cls r s :
  Re.match_here (Re.GroupPlus cls :: r) s
  = Re.plus_greedy cls (Re.match_here r) s.
Proof. reflexivity. Qed.

Lemma match_here_lit_class cls c r s :
  cls c = false → ∀ c', cls c' = true →
  Re.match_here (Re.Lit c :: r) (String c' s) = None.
Proof.
  intros Hc c' Hc'. simpl.
  destruct (Ascii.eqb_spec c c') as [<-|]; [congruence|done].
Qed.

Lemma findall_from_here r c s :
  Re.findall_from r 0 (String c s) =
    match Re.match_here r (String c s) with
    | Some (cap, n) => cap :: Re.findall_from r (n - 1) s
    | None => Re.findall_from r 0 s
    end.
Proof. reflexivity. Qed.

Lemma match_here_lit_inv c r s cap n :
  Re.match_here (Re.Lit c :: r) s = Some (cap, n) →
  ∃ s' m, s = String c s' ∧ Re.match_here r s' = Some (cap, m) ∧ n = S m.
Proof.
  destruct s as [|c' s]; cbn [Re.match_here]; [done|].
  destruct (Ascii.eqb_spec c c') as [<-|]; [|done].
  destruct (Re.match_here r s) as [[cap' m]|] eqn:Hm; [|done].
  intros [= <- <-]. by exists s, m.
Qed.

Lemma match_here_lit_mismatch c r s :
  stops (Ascii.eqb c) s → Re.match_here (Re.Lit c :: r) s = None.
Proof. destruct s as [|c' s]; simpl; [done|]. by intros ->. Qed.

(** Every element of a [findall] is the capture of an anchored match. *)
Lemma findall_from_capture r skip s x :
  x ∈ Re.findall_from r skip s → ∃ s' n, Re.match_here r s' = Some (x, n).
Proof.
  revert skip. induction s as [|c s IH]; intros skip; simpl.
  { intros H. by apply elem_of_nil in H. }
  destruct skip as [|k]; [|apply IH].
  destruct (Re.match_here r (String c s)) as [[cap n]|] eqn:Hm; [|apply IH].
  intros [->|?]%elem_of_cons; [by eexists _, _|by eapply IH].
Qed.

(** A pattern that starts with the literal [c0] finds nothing in a text
    without [c0]. *)
Lemma findall_from_no_start c0 r skip s :
  Str.all_chars (λ c, negb (Ascii.eqb c0 c)) s = true →
  Re.findall_from (Re.Lit c0 :: r) skip s = [].
Proof.
  revert skip. induction s as [|c s IH]; intros skip Hs; [done|].
  simpl in Hs. apply andb_prop in Hs as [Hc Hs].
  cbn [Re.findall_from]. destruct skip as [|k]; [|by apply IH].
  rewrite match_here_lit_mismatch; [by apply IH|].
  simpl. by apply negb_true_iff.
Qed.

Lemma findall_from_app_no_start c0 r pre s :
  Str.all_chars (λ c, negb (Ascii.eqb c0 c)) pre = true →
  Re.findall_from (Re.Lit c0 :: r) 0 (pre +:+ s)
  = Re.findall_from (Re.Lit c0 :: r) 0 s.
Proof.
  induction pre as [|c pre IH]; intros Hs; [done|].
  simpl in Hs. apply andb_prop in Hs as [Hc Hs].
  rewrite app_cons. cbn [Re.findall_from].
  rewrite match_here_lit_mismatch; [by apply IH|].
  simpl. by apply negb_true_iff.
Qed.

Lemma findall_from_skip r a s :
  Re.findall_from r (String.length a) (a +:+ s) = Re.findall_from r 0 s.
Proof. induction a as [|c a IH]; [by destruct s|]. by rewrite app_cons. Qed.

End regex_facts.

Lemma all_chars_impl (P Q : ascii → bool) s :
  (∀ c, P c = true → Q c = true) →
  Str.all_chars P s = true → Str.all_chars Q s = true.
Proof.
  intros HPQ. induction s as [|c s IH]; [done|]. simpl.
  intros [Hc Hs]%andb_prop. by rewrite (HPQ _ Hc), IH.
Qed.

Lemma plain_no_char c0 s :
  is_delimiter c0 = true → plain s = true →
  Str.all_chars (λ c, negb (Ascii.eqb c0 c)) s = true.
Proof.
  intros Hd. apply all_chars_impl. intros c Hc.
  apply negb_true_iff. apply negb_true_iff in Hc.
  destruct (Ascii.eqb_spec c0 c) as [<-|]; [congruence|done].
Qed.

Lemma upper_or_underscore_not_close c :
  upper_or_underscore c = true → not_close_brace c = true.
Proof.
  unfold not_close_brace. destruct (Ascii.eqb_spec c "}") as [->|]; done.
Qed.

Section single_occurrence.

Variables pre name post : string.
Hypothesis pre_plain : plain pre = true.
Hypothesis post_plain : plain post = true.
Hypothesis name_nonempty : name ≠ EmptyString.

Lemma findall_double_single :
  Str.all_chars not_close_brace name = true →
  Re.findall pattern_double (pre +:+ "{{" +:+ name +:+ "}}" +:+ post) = [name].
Proof using pre_plain post_plain name_nonempty.
  intros Hname. unfold Re.findall, pattern_double.
  rewrite findall_from_app_no_start by by apply plain_no_char.
  autorewrite with str.
  rewrite findall_from_here, !match_here_lit, match_here_group.
  rewrite plus_greedy_run;
    [|intros c s Hc; by apply (match_here_lit_class not_close_brace)|done..].
  rewrite !match_here_lit. cbn [Re.match_here]. f_equal.
  replace (S (S (String.length name + 2)) - 1)
    with (String.length (String "{" (name +:+ "}}"))).
  2:{ simpl. rewrite length_app_str. simpl. lia. }
  replace (String "{" (name +:+ String "}" (String "}" post)))
    with (String "{" (name +:+ "}}") +:+ post) by by autorewrite with str.
  rewrite findall_from_skip. apply findall_from_no_start.
  by apply plain_no_char.
Qed.

Lemma findall_delimited_single (o c : ascii) :
  is_delimiter o = true → upper_or_underscore c = false →
  Str.all_chars upper_or_underscore name = true →
  Re.findall [Re.Lit o; Re.GroupPlus upper_or_underscore; Re.Lit c]
    (pre +:+ String o (name +:+ String c post)) = [name].
Proof using pre_plain post_plain name_nonempty.
  intros Ho Hc Hname. unfold Re.findall.
  rewrite findall_from_app_no_start by by apply plain_no_char.
  rewrite findall_from_here, match_here_lit, match_here_group.
  rewrite plus_greedy_run;
    [|intros c' s Hc'; by apply (match_here_lit_class upper_or_underscore)
     |done..].
  rewrite match_here_lit. cbn [Re.match_here]. f_equal.
  replace (S (String.length name + 1) - 1)
    with (String.length (name +:+ String c EmptyString)).
  2:{ rewrite length_app_str. simpl. lia. }
  replace (name +:+ String c post)
    with ((name +:+ String c EmptyString) +:+ post) by by autorewrite with str.
  rewrite findall_from_skip. apply findall_from_no_start.
  by apply plain_no_char.
Qed.

End single_occurrence.

(** The bracket and single-brace patterns only ever capture non-empty runs
    of [[A-Z_]]. *)
Lemma findall_delimited_capture (o c : ascii) txt x :
  x ∈ Re.findall [Re.Lit o; Re.GroupPlus upper_or_underscore; Re.Lit c] txt →
  x ≠ EmptyString ∧ Str.all_chars upper_or_underscore x = true.
Proof.
  intros (s & n & Hm)%findall_from_capture.
  apply match_here_lit_inv in Hm as (s1 & m1 & -> & Hm & ->).
  rewrite match_here_group in Hm. by eapply plus_greedy_capture.
Qed.

(** The double-brace pattern captures non-empty texts without [}]. *)
Lemma findall_double_capture txt x :
  x ∈ Re.findall pattern_double txt →
  x ≠ EmptyString ∧ Str.all_chars not_close_brace x = true.
Proof.
  intros (s & n & Hm)%findall_from_capture.
  apply match_here_lit_inv in Hm as (s1 & m1 & -> & Hm & ->).
  apply match_here_lit_inv in Hm as (s2 & m2 & -> & Hm & ->).
  rewrite match_here_group in Hm. by eapply plus_greedy_capture.
Qed.

(** C6: a single occurrence of a placeholder, in a text that has no other
    delimiter character around it, is captured by the pattern of its syntax,
    and the capture is the content between the delimiters.  The bracket and
    single-brace patterns capture [[A-Z_]+] content only: a content with any
    other character, a lowercase letter for one, is never a capture of
    these two patterns. *)
Theorem single_occurrence_is_captured (pre name post : string) :
  plain pre = true → plain post = true →
  name ≠ EmptyString → Str.all_chars not_close_brace name = true →
  Re.findall pattern_double (pre +:+ "{{" +:+ name +:+ "}}" +:+ post) = [name]
  ∧ (Str.all_chars upper_or_underscore name = true →
       Re.findall pattern_bracket (pre +:+ "[" +:+ name +:+ "]" +:+ post) = [name]
       ∧ Re.findall pattern_brace (pre +:+ "{" +:+ name +:+ "}" +:+ post) = [name])
  ∧ (Str.all_chars upper_or_underscore name = false →
       ∀ txt, (name ∉ Re.findall pattern_bracket txt)
              ∧ (name ∉ Re.findall pattern_brace txt)).
Proof.
  intros Hpre Hpost Hne Hname. split; [by apply findall_double_single|].
  split.
  - intros Hup. split.
    + by apply (findall_delimited_single pre name post Hpre Hpost Hne "[" "]").
    + by apply (findall_delimited_single pre name post Hpre Hpost Hne "{" "}").
  - intros Hlow txt.
    split; intros [_ Hup]%findall_delimited_capture; congruence.
Qed.

Lemma single_occurrence_is_captured_witness :
  (Re.findall pattern_double "Date: {{AccidentDate}}." = ["AccidentDate"]
   ∧ ∀ txt, ("AccidentDate" ∉ Re.findall pattern_bracket txt)
            ∧ ("AccidentDate" ∉ Re.findall pattern_brace txt))
  ∧ Re.findall pattern_double "Id: {{CLAIM_ID}}" = ["CLAIM_ID"]
  ∧ Re.findall pattern_bracket "Id: [CLAIM_ID]" = ["CLAIM_ID"]
  ∧ Re.findall pattern_brace "Id: {CLAIM_ID}" = ["CLAIM_ID"].
Proof.
  split.
  - destruct (single_occurrence_is_captured "Date: " "AccidentDate" "."
                eq_refl eq_refl ltac:(discriminate) eq_refl) as (Hd & _ & Hlow).
    split; [exact Hd|exact (Hlow eq_refl)].
  - destruct (single_occurrence_is_captured "Id: " "CLAIM_ID" ""
                eq_refl eq_refl ltac:(discriminate) eq_refl) as (Hd & Hup & _).
    destruct (Hup eq_refl) as [Hb Hs].
    split; [exact Hd|]. split; [exact Hb|exact Hs].
Defined.

(** The engine on texts with nested and unbalanced delimiters. *)
Example findall_examples :
  Re.findall pattern_double "{{{x}}" = ["{x"]
  ∧ Re.findall pattern_double "{{a{{b}}" = ["a{{b"]
  ∧ Re.findall pattern_double "{{}}" = []
  ∧ Re.findall pattern_brace "{{A}}" = ["A"]
  ∧ Re.findall pattern_bracket "{{A][B}} [A][B]" = ["A"; "B"]
  ∧ Re.findall pattern_brace "{B} {AA} {draft}" = ["B"; "AA"].
Proof. repeat split; reflexivity. Qed.

Example find_placeholders_example :
  find_placeholders
    (mkDocument
       [mkParagraph [mkRun "Claimant: [CLAIMANT" (Some "bold"); mkRun "NAME]" None]]
       [mkTable [mkRow [mkCell [mkParagraph [mkRun "{{AccidentDate}}" None]];
                        mkCell [mkParagraph [mkRun "{AMOUNT} [CLAIMANTNAME]" None]]]]]
       [mkSection [mkParagraph [mkRun "{{Policy}}" None]]
                  [mkParagraph [mkRun "[AMOUNT]" None]]])
  = ["AMOUNT"; "AccidentDate"; "CLAIMANTNAME"; "Policy"].
Proof. reflexivity. Qed.

(** ** Substitution in one paragraph *)

Lemma text_cleared (rs : list Run) :
  foldr (λ r acc, run_text r +:+ acc) EmptyString (set_run_text EmptyString <$> rs)
  = EmptyString.
Proof.
  induction rs as [|r rs IH]; [done|].
  rewrite fmap_cons. cbn [foldr set_run_text run_text]. by rewrite IH.
Qed.

(** After the write-back the paragraph reads as the new text. *)
Lemma text_write_text (p : Paragraph) (new_text : string) :
  text (write_text p new_text) = new_text.
Proof.
  unfold write_text, text. destruct (runs p) as [|r rs].
  - apply app_empty_r.
  - rewrite fmap_cons. cbn [runs foldr set_run_text run_text].
    by rewrite text_cleared, app_empty_r.
Qed.

Lemma runs_write_text (p : Paragraph) (new_text : string) :
  runs (write_text p new_text) =
    match runs p with
    | first :: others =>
        mkRun new_text (run_format first)
        :: ((λ r, mkRun EmptyString (run_format r)) <$> others)
    | [] => [mkRun new_text None]
    end.
Proof. unfold write_text. by destruct (runs p). Qed.

Lemma formats_tokens placeholder :
  formats placeholder
  = [double_token placeholder; bracket_token placeholder; brace_token placeholder].
Proof. reflexivity. Qed.

Lemma replace_in_paragraph_matching (p : Paragraph) placeholder value :
  replace_in_paragraph p placeholder value =
    match matching_form placeholder (text p) with
    | Some token => write_text p (Str.replace token (py_str value) (text p))
    | None => p
    end.
Proof.
  unfold replace_in_paragraph, matching_form. rewrite formats_tokens.
  cbn [try_formats].
  destruct (Str.contains (double_token placeholder) (text p)); [done|].
  destruct (Str.contains (bracket_token placeholder) (text p)); [done|].
  by destruct (Str.contains (brace_token placeholder) (text p)).
Qed.

(** C2: [replace_in_paragraph] tries the double-brace token, then the
    bracket token, then the single-brace token of the field, and rewrites the
    paragraph with the first of them that occurs in its text, and with that
    one only; when none occurs the paragraph is returned as it is. *)
Theorem replace_in_paragraph_priority (p : Paragraph) (placeholder : string)
    (value : pyvalue) :
  let double := "{{" +:+ placeholder +:+ "}}" in
  let bracket := "[" +:+ placeholder +:+ "]" in
  let brace := "{" +:+ placeholder +:+ "}" in
  let result := replace_in_paragraph p placeholder value in
  (Str.contains double (text p) = true →
     result = write_text p (Str.replace double (py_str value) (text p))
     ∧ text result = Str.replace double (py_str value) (text p))
  ∧ (Str.contains double (text p) = false →
     Str.contains bracket (text p) = true →
     result = write_text p (Str.replace bracket (py_str value) (text p))
     ∧ text result = Str.replace bracket (py_str value) (text p))
  ∧ (Str.contains double (text p) = false →
     Str.contains bracket (text p) = false →
     Str.contains brace (text p) = true →
     result = write_text p (Str.replace brace (py_str value) (text p))
     ∧ text result = Str.replace brace (py_str value) (text p))
  ∧ (Str.contains double (text p) = false →
     Str.contains bracket (text p) = false →
     Str.contains brace (text p) = false →
     result = p).
Proof.
  intros double bracket brace result. subst result.
  rewrite replace_in_paragraph_matching. unfold matching_form.
  change (double_token placeholder) with double.
  change (bracket_token placeholder) with bracket.
  change (brace_token placeholder) with brace.
  split; [|split; [|split]].
  - intros ->. split; [done|apply text_write_text].
  - intros -> ->. split; [done|apply text_write_text].
  - intros -> -> ->. split; [done|apply text_write_text].
  - by intros -> -> ->.
Qed.

Lemma replace_in_paragraph_priority_witness :
  let p := mkParagraph [mkRun "Date: {{D}} " (Some "bold"); mkRun "[D] {D}" None] in
  text (replace_in_paragraph p "D" (VStr "2025-01-15")) = "Date: 2025-01-15 [D] {D}"
  ∧ text (replace_in_paragraph (mkParagraph [mkRun "[D] {D}" None]) "D" (VStr "x"))
    = "x {D}"
  ∧ text (replace_in_paragraph (mkParagraph [mkRun "{D}" None]) "D" (VStr "x")) = "x"
  ∧ replace_in_paragraph (mkParagraph [mkRun "{E}" None]) "D" (VStr "x")
    = mkParagraph [mkRun "{E}" None].
Proof.
  intros p. split; [|split; [|split]].
  - destruct (replace_in_paragraph_priority p "D" (VStr "2025-01-15"))
      as (H & _).
    exact (proj2 (H eq_refl)).
  - destruct (replace_in_paragraph_priority
                (mkParagraph [mkRun "[D] {D}" None]) "D" (VStr "x"))
      as (_ & H & _).
    exact (proj2 (H eq_refl eq_refl)).
  - destruct (replace_in_paragraph_priority
                (mkParagraph [mkRun "{D}" None]) "D" (VStr "x"))
      as (_ & _ & H & _).
    exact (proj2 (H eq_refl eq_refl eq_refl)).
  - destruct (replace_in_paragraph_priority
                (mkParagraph [mkRun "{E}" None]) "D" (VStr "x"))
      as (_ & _ & _ & H).
    exact (H eq_refl eq_refl eq_refl).
Defined.



(** The scenario of the specification. *)
Example replace_placeholders_scenario :
  text <$> paragraphs
    (replace_placeholders
       (mkDocument
          [mkParagraph [mkRun "Claimant: [CLAIMANTNAME], Date: {{AccidentDate}}" None]]
          [] [])
       [("CLAIMANTNAME", VStr "Jane Doe"); ("AccidentDate", VStr "2025-01-15")])
  = ["Claimant: Jane Doe, Date: 2025-01-15"].
Proof. reflexivity. Qed.

(** ** [str.replace] replaces every occurrence that its scan meets *)

Section replace_facts.

Lemma prefix_nil_l s : String.prefix EmptyString s = true.
Proof. by destruct s. Qed.

Lemma prefix_cons a s1 b s2 :
  String.prefix (String a s1) (String b s2)
  = if decide (a = b) then String.prefix s1 s2 else false.
Proof. simpl. destruct (ascii_dec a b); by case_decide. Qed.

Lemma prefix_app_r a b c :
  String.prefix a b = true → String.prefix a (b +:+ c) = true.
Proof.
  revert b. induction a as [|x a IH]; intros b; [intros; apply prefix_nil_l|].
  destruct b as [|y b]; [done|]. rewrite app_cons, !prefix_cons.
  case_decide; [apply IH|done].
Qed.

Lemma prefix_app a rest : String.prefix a (a +:+ rest) = true.
Proof.
  induction a as [|x a IH]; [apply prefix_nil_l|].
  rewrite app_cons, prefix_cons. by case_decide.
Qed.

Lemma prefix_split a s :
  String.prefix a s = true → ∃ rest, s = a +:+ rest.
Proof.
  revert s. induction a as [|x a IH]; intros s; [by exists s|].
  destruct s as [|y s]; [done|]. rewrite prefix_cons.
  case_decide as Hxy; [|done]. subst y.
  intros [rest ->]%IH. by exists rest.
Qed.

Lemma drop_app_length a b : Str.drop (String.length a) (a +:+ b) = b.
Proof. induction a as [|x a IH]; [by destruct b|]. by rewrite app_cons. Qed.

Lemma contains_app_r a s t :
  Str.contains a t = true → Str.contains a (s +:+ t) = true.
Proof.
  intros Ht. induction s as [|c s IH]; [done|].
  rewrite app_cons. cbn [Str.contains]. rewrite IH. apply orb_true_r.
Qed.

Lemma contains_nil_l s : Str.contains EmptyString s = true.
Proof. destruct s; [done|]. cbn [Str.contains]. by rewrite prefix_nil_l. Qed.

Lemma contains_app_l a s t :
  Str.contains a s = true → Str.contains a (s +:+ t) = true.
Proof.
  induction s as [|c s IH].
  - destruct a; [intros _; apply contains_nil_l|done].
  - rewrite app_cons. cbn [Str.contains].
    intros [Hp|Hc]%orb_prop.
    + apply (prefix_app_r _ _ t) in Hp. rewrite app_cons in Hp.
      by rewrite Hp.
    + rewrite (IH Hc). apply orb_true_r.
Qed.

Lemma join_cons sep x rest :
  rest ≠ [] → Str.join sep (x :: rest) = x +:+ sep +:+ Str.join sep rest.
Proof. by destruct rest. Qed.

Lemma join_cons_head sep c x rest :
  Str.join sep (String c x :: rest) = String c (Str.join sep (x :: rest)).
Proof. by destruct rest. Qed.

Lemma contains_join other sep chunks u :
  u ∈ chunks → Str.contains other u = true →
  Str.contains other (Str.join sep chunks) = true.
Proof.
  intros Hu Hc. induction chunks as [|x rest IH]; [by apply elem_of_nil in Hu|].
  destruct rest as [|y rest].
  - apply list_elem_of_singleton in Hu as ->. done.
  - rewrite join_cons by done.
    apply elem_of_cons in Hu as [->|Hu].
    + by apply contains_app_l.
    + apply contains_app_r, contains_app_r. by apply IH.
Qed.

Variable old : string.
Hypothesis old_nonempty : old ≠ EmptyString.

Lemma pieces_from_nonempty skip s : pieces_from old skip s ≠ [].
Proof using Type.
  revert skip. induction s as [|c s IH]; intros skip; [done|].
  cbn [pieces_from]. destruct skip; [|apply IH].
  destruct (String.prefix old (String c s)); [done|].
  by destruct (pieces_from old 0 s).
Qed.

(** [replace] writes [new] between the pieces. *)
Lemma replace_from_pieces new skip s :
  Str.replace_from old new skip s = Str.join new (pieces_from old skip s).
Proof using Type.
  revert skip. induction s as [|c s IH]; intros skip; [done|].
  cbn [pieces_from Str.replace_from]. destruct skip; [|apply IH].
  destruct (String.prefix old (String c s)).
  - rewrite join_cons by apply pieces_from_nonempty. by rewrite IH.
  - rewrite IH. pose proof (pieces_from_nonempty 0 s).
    destruct (pieces_from old 0 s) as [|x rest]; [done|].
    by rewrite join_cons_head.
Qed.

(** The text is the pieces with [old] between them. *)
Lemma join_pieces_from skip s :
  skip ≤ String.length s →
  Str.join old (pieces_from old skip s) = Str.drop skip s.
Proof using old_nonempty.
  revert skip. induction s as [|c s IH]; intros skip Hk.
  { by destruct skip. }
  cbn [pieces_from]. destruct skip as [|k].
  - destruct (String.prefix old (String c s)) eqn:Hp.
    + rewrite join_cons by apply pieces_from_nonempty.
      apply prefix_split in Hp as [rest Hs].
      destruct old as [|c0 old']; [done|].
      rewrite app_cons in Hs. injection Hs as <- ->.
      replace (String.length (String c old') - 1)
        with (String.length old') by (simpl; lia).
      rewrite IH by (rewrite length_app_str; lia).
      by rewrite drop_app_length.
    + pose proof (pieces_from_nonempty 0 s).
      specialize (IH 0 ltac:(lia)).
      destruct (pieces_from old 0 s) as [|x rest]; [done|].
      rewrite join_cons_head, IH. by destruct s.
  - simpl in Hk. rewrite IH by lia. done.
Qed.

Lemma join_head_prefix sep x rest :
  ∃ tail, Str.join sep (x :: rest) = x +:+ tail.
Proof using Type.
  destruct rest as [|y rest].
  - exists EmptyString. by rewrite app_empty_r.
  - by eexists.
Qed.

(** No piece has an occurrence of [old]. *)
Lemma pieces_from_free skip s :
  skip ≤ String.length s →
  Forall (λ u, Str.contains old u = false) (pieces_from old skip s).
Proof using old_nonempty.
  revert skip. induction s as [|c s IH]; intros skip Hk.
  { constructor; [|done]. by destruct old. }
  cbn [pieces_from]. destruct skip as [|k]; [|apply IH; simpl in Hk; lia].
  destruct (String.prefix old (String c s)) eqn:Hp.
  - constructor; [by destruct old|]. apply IH.
    apply prefix_split in Hp as [rest Hs].
    destruct old as [|c0 old']; [done|].
    rewrite app_cons in Hs. injection Hs as <- ->.
    rewrite length_app_str. simpl. lia.
  - pose proof (join_pieces_from 0 s ltac:(lia)) as Hj.
    specialize (IH 0 ltac:(lia)).
    destruct (pieces_from old 0 s) as [|x rest].
    { constructor; [|done]. cbn [Str.contains].
      destruct old as [|c0 [|c1 old']]; [done| |].
      - rewrite prefix_cons. rewrite prefix_cons in Hp.
        case_decide; [|done]. by rewrite prefix_nil_l in Hp.
      - rewrite prefix_cons. by case_decide. }
    apply Forall_cons in IH as [Hx Hrest].
    constructor; [|done]. cbn [Str.contains]. rewrite Hx, orb_false_r.
    destruct (join_head_prefix old x rest) as [tail Htail].
    rewrite Htail in Hj. replace (Str.drop 0 s) with s in Hj by by destruct s.
    subst s. destruct (String.prefix old (String c x)) eqn:Hpx; [|done].
    apply (prefix_app_r _ _ tail) in Hpx. rewrite app_cons in Hpx. congruence.
Qed.

Lemma replace_pieces new s :
  Str.replace old new s = Str.join new (pieces_from old 0 s).
Proof using old_nonempty.
  rewrite <- replace_from_pieces.
  generalize old_nonempty. generalize old. by intros [|??].
Qed.

Lemma join_pieces s : Str.join old (pieces_from old 0 s) = s.
Proof using old_nonempty.
  rewrite join_pieces_from by lia. by destruct s.
Qed.

End replace_facts.

Lemma matching_form_token placeholder txt token :
  matching_form placeholder txt = Some token →
  token ≠ EmptyString ∧ Str.contains token txt = true
  ∧ token ∈ formats placeholder.
Proof.
  unfold matching_form. rewrite formats_tokens.
  destruct (Str.contains (double_token placeholder) txt) eqn:H1.
  { intros [= <-]. split; [done|]. split; [done|]. set_solver. }
  destruct (Str.contains (bracket_token placeholder) txt) eqn:H2.
  { intros [= <-]. split; [done|]. split; [done|]. set_solver. }
  destruct (Str.contains (brace_token placeholder) txt) eqn:H3; [|done].
  intros [= <-]. split; [done|]. split; [done|]. set_solver.
Qed.

(** C10: in a paragraph where a token of the field occurs, the text is cut at
    every occurrence of the first matching token that the scan of [replace]
    meets, left to right, and the value is written in place of each of them;
    the pieces in between have no occurrence of that token left and are kept
    as they are, so that whatever stands in a piece, the occurrences of the
    lower-priority tokens of the same field included, is still in the
    paragraph afterwards: no other form is replaced. *)
Theorem replace_in_paragraph_global (p : Paragraph) (placeholder : string)
    (value : pyvalue) (token : string) :
  matching_form placeholder (text p) = Some token →
  ∃ chunks,
    text p = Str.join token chunks
    ∧ Forall (λ u, Str.contains token u = false) chunks
    ∧ text (replace_in_paragraph p placeholder value)
      = Str.join (py_str value) chunks
    ∧ ∀ u other, u ∈ chunks → Str.contains other u = true →
        Str.contains other (text (replace_in_paragraph p placeholder value)) = true.
Proof.
  intros Hm. rewrite replace_in_paragraph_matching, Hm, text_write_text.
  apply matching_form_token in Hm as (Hne & _ & _).
  exists (pieces_from token 0 (text p)).
  split; [by rewrite join_pieces|].
  split; [by apply pieces_from_free; [|lia]|].
  split; [by apply replace_pieces|].
  intros u other Hu Hc. rewrite replace_pieces by done.
  by eapply contains_join.
Qed.

Lemma replace_in_paragraph_global_witness :
  let p := mkParagraph [mkRun "{{A}}, [A] or {A}; " (Some "bold"); mkRun "{{A}}." None] in
  ∃ chunks,
    text p = Str.join "{{A}}" chunks
    ∧ Forall (λ u, Str.contains "{{A}}" u = false) chunks
    ∧ text (replace_in_paragraph p "A" (VStr "v")) = Str.join "v" chunks
    ∧ ∀ u other, u ∈ chunks → Str.contains other u = true →
        Str.contains other (text (replace_in_paragraph p "A" (VStr "v"))) = true.
Proof.
  intros p.
  exact (replace_in_paragraph_global p "A" (VStr "v") "{{A}}" eq_refl).
Defined.

Example replace_in_paragraph_global_example :
  text (replace_in_paragraph
          (mkParagraph [mkRun "{{A}}, [A] or {A}; " (Some "bold"); mkRun "{{A}}." None])
          "A" (VStr "v"))
  = "v, [A] or {A}; v.".
Proof. reflexivity. Qed.

(** ** The field mapping returned by [extract_fields_from_text] *)

Section dict_facts.
Context {V : Type}.
Implicit Types (d : dict V) (k : string) (v : V).

Lemma dict_get_set_eq k v d : dict_get k (dict_set k v d) = Some v.
Proof.
  induction d as [|[k' v'] d IH]; simpl.
  - by rewrite String.eqb_refl.
  - destruct (String.eqb_spec k k') as [->|Hne]; simpl.
    + by rewrite String.eqb_refl.
    + by apply String.eqb_neq in Hne as ->.
Qed.

Lemma dict_get_set_ne k k' v d :
  k ≠ k' → dict_get k (dict_set k' v d) = dict_get k d.
Proof.
  intros Hne. induction d as [|[k1 v1] d IH]; simpl.
  - by apply String.eqb_neq in Hne as ->.
  - destruct (String.eqb_spec k' k1) as [->|Hne1]; simpl.
    + by apply String.eqb_neq in Hne as ->.
    + by rewrite IH.
Qed.

Lemma dict_keys_set k v d :
  ∀ k', k' ∈ (dict_set k v d).*1 ↔ k' = k ∨ k' ∈ d.*1.
Proof.
  intros k'. induction d as [|[k1 v1] d IH]; simpl.
  - rewrite list_elem_of_singleton. set_solver.
  - destruct (String.eqb_spec k k1) as [->|Hne]; simpl.
    + set_solver.
    + rewrite !elem_of_cons, IH. tauto.
Qed.

End dict_facts.

Lemma for_each_fill members placeholders result tr :
  for_each placeholders
    (λ result placeholder,
       value ← get_or_not_found (JObject members) placeholder;
       ret (dict_set placeholder value result)) result tr
  = (tr, inr (fill members placeholders result)).
Proof.
  revert result. induction placeholders as [|ph phs IH]; intros result; [done|].
  cbn [for_each fill foldl]. unfold mbind, M_bind, bind at 1. simpl.
  apply IH.
Qed.

Lemma fill_get members placeholders result ph :
  ph ∈ placeholders →
  dict_get ph (fill members placeholders result)
  = Some (default not_found (members !! ph)).
Proof.
  unfold fill. revert result.
  induction placeholders as [|x phs IH] using rev_ind; intros result Hin.
  { by apply elem_of_nil in Hin. }
  rewrite foldl_snoc. destruct (decide (ph = x)) as [->|Hne].
  - apply dict_get_set_eq.
  - rewrite dict_get_set_ne by done. apply IH.
    apply elem_of_app in Hin as [?|Hin]; [done|].
    by apply list_elem_of_singleton in Hin.
Qed.

Lemma fill_keys members placeholders result k :
  k ∈ (fill members placeholders result).*1 ↔ k ∈ placeholders ∨ k ∈ result.*1.
Proof.
  unfold fill. revert result.
  induction placeholders as [|x phs IH]; intros result; simpl.
  - set_solver.
  - rewrite IH, dict_keys_set. set_solver.
Qed.

Lemma for_each_no_get type_name ph phs result tr :
  for_each (ph :: phs)
    (λ result placeholder,
       value ← get_or_not_found (JOther type_name) placeholder;
       ret (dict_set placeholder value result)) result tr
  = (tr, inl (Exception ("'" +:+ type_name +:+ "' object has no attribute 'get'"))).
Proof. reflexivity. Qed.

(** Everything [extract_fields_from_text] can do, by the answers of its
    collaborators. *)
Lemma extract_fields_from_text_run w placeholders extracted_text api_key tr :
  extract_fields_from_text w placeholders extracted_text api_key tr =
    let prompt := prompt_of placeholders extracted_text in
    let tr' := tr ++ [CallApi prompt] in
    match openrouter w prompt api_key with
    | RequestFailed msg =>
        (tr', inl (Exception ("Error during field extraction: "
                              +:+ "API request failed: " +:+ msg)))
    | UnexpectedFormat msg =>
        (tr', inl (Exception ("Error during field extraction: "
                              +:+ "Unexpected API response format: " +:+ msg)))
    | Content content =>
        match json_loads w (clean_response content) with
        | inl msg =>
            (tr', inl (Exception ("Failed to parse LLM response as JSON: " +:+ msg
                         +:+ nl +:+ "Response: " +:+ clean_response content)))
        | inr (JObject members) => (tr', inr (fill members placeholders []))
        | inr (JOther type_name) =>
            match placeholders with
            | [] => (tr', inr [])
            | _ :: _ =>
                (tr', inl (Exception ("Error during field extraction: "
                   +:+ "'" +:+ type_name +:+ "' object has no attribute 'get'")))
            end
        end
    end.
Proof.
  unfold extract_fields_from_text.
  cbv [mbind M_bind bind try_except call_openrouter_api emit].
  cbv zeta.
  destruct (openrouter w (prompt_of placeholders extracted_text) api_key)
    as [msg|msg|content]; cbv [raise other_exception ret];
    [reflexivity..|].
  destruct (json_loads w (clean_response content)) as [msg|[members|type_name]];
    [reflexivity| |].
  - change (for_each placeholders _ [] (tr ++ [CallApi (prompt_of placeholders extracted_text)]))
      with (for_each placeholders
        (λ result placeholder,
           value ← get_or_not_found (JObject members) placeholder;
           ret (dict_set placeholder value result)) []
        (tr ++ [CallApi (prompt_of placeholders extracted_text)])).
    by rewrite for_each_fill.
  - destruct placeholders as [|ph phs]; [done|].
    change (for_each (ph :: phs) _ [] (tr ++ [CallApi (prompt_of (ph :: phs) extracted_text)]))
      with (for_each (ph :: phs)
        (λ result placeholder,
           value ← get_or_not_found (JOther type_name) placeholder;
           ret (dict_set placeholder value result)) []
        (tr ++ [CallApi (prompt_of (ph :: phs) extracted_text)])).
    by rewrite for_each_no_get.
Qed.

(** C7: when the collaborator answers with a JSON object, the call returns a
    mapping in which every requested field is a key, with the value of the
    answer, and with ["Not Found"] for a field that the answer does not
    have; and a mapping that the call returns is always of that kind. *)
Theorem extract_fields_complete (w : Collaborators) (placeholders : list string)
    (extracted_text api_key : string) :
  let prompt := prompt_of placeholders extracted_text in
  let call := run (extract_fields_from_text w placeholders extracted_text api_key) in
  (∀ content members,
     openrouter w prompt api_key = Content content →
     json_loads w (clean_response content) = inr (JObject members) →
     ∃ result,
       call = ([CallApi prompt], inr result)
       ∧ (∀ k, k ∈ result.*1 ↔ k ∈ placeholders)
       ∧ ∀ ph, ph ∈ placeholders →
           dict_get ph result
           = Some (match members !! ph with
                   | Some value => value
                   | None => VStr "Not Found"
                   end))
  ∧ (∀ tr result ph,
       call = (tr, inr result) → ph ∈ placeholders →
       ∃ content members,
         openrouter w prompt api_key = Content content
         ∧ json_loads w (clean_response content) = inr (JObject members)
         ∧ dict_get ph result
           = Some (match members !! ph with
                   | Some value => value
                   | None => VStr "Not Found"
                   end)).
Proof.
  intros prompt call. subst call. unfold run.
  rewrite extract_fields_from_text_run. cbv zeta. fold prompt. split.
  - intros content members -> ->. eexists. split; [done|]. split.
    + intros k. rewrite fill_keys. set_solver.
    + intros ph Hph. rewrite (fill_get _ _ _ _ Hph).
      by destruct (members !! ph).
  - intros tr result ph Hrun Hph.
    destruct (openrouter w prompt api_key) as [msg|msg|content] eqn:Ho;
      [discriminate Hrun..|].
    destruct (json_loads w (clean_response content))
      as [msg|[members|type_name]] eqn:Hj; [discriminate Hrun| |].
    + injection Hrun as <- <-. exists content, members.
      split; [done|]. split; [done|]. rewrite (fill_get _ _ _ _ Hph).
      by destruct (members !! ph).
    + destruct placeholders; [by apply elem_of_nil in Hph|discriminate Hrun].
Qed.

Lemma extract_fields_complete_witness :
  let w := mkCollaborators (λ _, inl "") (λ _, inl "")
             (λ _ _, Content "```json{}```")
             (λ _, inr (JObject {[ "CLAIMANT" := VStr "Jane Doe" ]})) in
  ∃ result,
    (run (extract_fields_from_text w ["CLAIMANT"; "DATE"] "report" "key")).2
    = inr result
    ∧ dict_get "CLAIMANT" result = Some (VStr "Jane Doe")
    ∧ dict_get "DATE" result = Some (VStr "Not Found").
Proof.
  intros w.
  destruct (proj1 (extract_fields_complete w ["CLAIMANT"; "DATE"] "report" "key")
              "```json{}```" {[ "CLAIMANT" := VStr "Jane Doe" ]} eq_refl eq_refl)
    as (result & Hrun & _ & Hget).
  exists result. split; [by rewrite Hrun|]. split.
  - exact (Hget "CLAIMANT" ltac:(apply list_elem_of_here)).
  - exact (Hget "DATE" ltac:(apply list_elem_of_further, list_elem_of_here)).
Defined.

(** ** The runs of the pipeline *)

Section runs.

Variable w : Collaborators.

Lemma bind_run {A B} (m : M A) (f : A → M B) tr :
  (m ≫= f) tr =
    match m tr with
    | (tr', inr a) => f a tr'
    | (tr', inl e) => (tr', inl e)
    end.
Proof. reflexivity. Qed.

Lemma load_template_run docx_file tr :
  load_template w docx_file tr =
    (tr ++ [OpenDocx (upload_bytes docx_file)],
     match docx_open w (upload_bytes docx_file) with
     | inl msg => inl (Exception ("Error loading template: " +:+ msg))
     | inr doc => inr doc
     end).
Proof.
  unfold load_template, try_except. rewrite bind_run. cbv [emit lift].
  by destruct (docx_open w (upload_bytes docx_file)).
Qed.

Lemma extract_text_from_pdf_run pdf_file tr :
  extract_text_from_pdf w pdf_file tr =
    (tr ++ [OpenPdf (upload_name pdf_file)],
     match fitz_pages w (upload_bytes pdf_file) with
     | inl msg => inl (Exception ("Error extracting text from PDF: " +:+ msg))
     | inr pages => inr (pdf_text pages)
     end).
Proof.
  unfold extract_text_from_pdf, try_except. rewrite !bind_run. cbv [emit lift].
  rewrite bind_run.
  by destruct (fitz_pages w (upload_bytes pdf_file)).
Qed.

(** The loop over the reports never raises: a report that cannot be read
    is recorded with the message of its failure, and the loop goes on. *)
Lemma record_reports_run pdf_files results tr :
  for_each pdf_files
    (λ results pdf_file,
       try_except
         (txt ← extract_text_from_pdf w pdf_file;
          ret (dict_set (upload_name pdf_file) txt results))
         (λ msg, ret (dict_set (upload_name pdf_file) ("Error: " +:+ msg) results)))
    results tr
  = (tr ++ (OpenPdf ∘ upload_name <$> pdf_files),
     inr (recorded w pdf_files results)).
Proof.
  revert results tr. induction pdf_files as [|f fs IH]; intros results tr.
  { cbn. by rewrite app_nil_r. }
  cbn [for_each]. rewrite bind_run. unfold try_except at 1.
  rewrite bind_run, extract_text_from_pdf_run.
  rewrite fmap_cons. unfold recorded. cbn [foldl]. unfold recorded_text at 2.
  destruct (fitz_pages w (upload_bytes f)) as [msg|pages]; cbv [ret];
    rewrite IH; by rewrite <- (assoc_L (++)).
Qed.

Lemma extract_text_from_multiple_pdfs_run pdf_files tr :
  extract_text_from_multiple_pdfs w pdf_files tr =
    (tr ++ (OpenPdf ∘ upload_name <$> pdf_files),
     inr (recorded w pdf_files [])).
Proof. apply record_reports_run. Qed.

Lemma source_text_single report tr :
  source_text w [report] tr = extract_text_from_pdf w report tr.
Proof. reflexivity. Qed.

Lemma source_text_multiple report1 report2 reports tr :
  let report_files := report1 :: report2 :: reports in
  source_text w report_files tr =
    (tr ++ (OpenPdf ∘ upload_name <$> report_files),
     inr (combine (recorded w report_files []))).
Proof.
  intros report_files. subst report_files. unfold source_text.
  cbv beta iota. by rewrite bind_run, extract_text_from_multiple_pdfs_run.
Qed.

Lemma pipeline_run api_key template_file report_files tr :
  pipeline w api_key template_file report_files tr =
    let tr1 := tr ++ [Step 1; OpenDocx (upload_bytes template_file)] in
    match docx_open w (upload_bytes template_file) with
    | inl msg => (tr1, inl (Exception ("Error loading template: " +:+ msg)))
    | inr doc =>
        match find_placeholders doc with
        | [] => (tr1 ++ [UiError NoPlaceholdersFound], inl StopException)
        | ph :: phs =>
            match source_text w report_files (tr1 ++ [Step 2]) with
            | (tr2, inl e) => (tr2, inl e)
            | (tr2, inr extracted_text) =>
                match extract_fields_from_text w (ph :: phs) extracted_text
                        api_key (tr2 ++ [Step 3]) with
                | (tr3, inl e) => (tr3, inl e)
                | (tr3, inr extracted_data) =>
                    (tr3 ++ [Step 4;
                             OfferDownload (replace_placeholders doc extracted_data)],
                     inr ())
                end
            end
        end
    end.
Proof.
  unfold pipeline. rewrite bind_run. cbv [emit].
  rewrite bind_run, load_template_run, <- (assoc_L (++)). cbn [app]. cbv zeta.
  destruct (docx_open w (upload_bytes template_file)) as [msg|doc]; [done|].
  rewrite bind_run.
  destruct (find_placeholders doc) as [|ph phs].
  { rewrite bind_run. cbv [emit raise]. done. }
  cbv [ret]. rewrite bind_run. rewrite bind_run.
  destruct (source_text w report_files _) as [tr2 [e|extracted_text]]; [done|].
  rewrite bind_run. rewrite bind_run.
  destruct (extract_fields_from_text w (ph :: phs) extracted_text api_key _)
    as [tr3 [e|extracted_data]]; [done|].
  rewrite bind_run. by rewrite <- (assoc_L (++)).
Qed.

Lemma process_valid api_key template_file report_files :
  api_key ≠ EmptyString → report_files ≠ [] →
  process w api_key (Some template_file) report_files =
    try_except (pipeline w api_key template_file report_files)
      (λ msg, emit (UiError (ErrorOccurred msg))).
Proof.
  intros Hkey Hreports. unfold process. case_decide; [done|].
  by destruct report_files.
Qed.

Lemma process_run api_key template_file report_files :
  api_key ≠ EmptyString → report_files ≠ [] →
  run (process w api_key (Some template_file) report_files) =
    match pipeline w api_key template_file report_files [] with
    | (tr, inl (Exception msg)) =>
        (tr ++ [UiError (ErrorOccurred msg)], inr ())
    | r => r
    end.
Proof. intros. by rewrite process_valid. Qed.

End runs.

(** A run in which every collaborator answers. *)
Example process_completes :
  let doc := mkDocument [mkParagraph [mkRun "Name: [NAME], {{Date}}" None]] [] [] in
  let w := mkCollaborators (λ _, inr doc) (λ bytes, inr [bytes])
             (λ _ _, Content "```json{}```")
             (λ _, inr (JObject {[ "NAME" := VStr "Jane Doe" ]})) in
  run (process w "key" (Some (mkUpload "form.docx" "PK")) [mkUpload "a.pdf" "Jane Doe"])
  = ([Step 1; OpenDocx "PK"; Step 2; OpenPdf "a.pdf"; Step 3;
      CallApi (prompt_of ["Date"; "NAME"] ("--- Page 1 ---" +:+ nl +:+ "Jane Doe"));
      Step 4;
      OfferDownload
        (mkDocument [mkParagraph [mkRun "Name: Jane Doe, Not Found" None]] [] [])],
     inr ()).
Proof. reflexivity. Qed.

(** C8: a template in which no pattern matches anywhere scans to the empty
    list, and the run stops right after the scan with the error of the
    missing placeholders: no report is read, the extraction collaborator is
    not called, nothing is substituted and no document is offered. *)
Theorem no_placeholders_stops (w : Collaborators) (api_key : string)
    (template_file : Upload) (report_files : list Upload) (doc : Document) :
  api_key ≠ EmptyString → report_files ≠ [] →
  docx_open w (upload_bytes template_file) = inr doc →
  no_match doc →
  find_placeholders doc = []
  ∧ run (process w api_key (Some template_file) report_files)
    = ([Step 1; OpenDocx (upload_bytes template_file);
        UiError NoPlaceholdersFound],
       inl StopException)
  ∧ api_calls (run (process w api_key (Some template_file) report_files)).1 = []
  ∧ downloads (run (process w api_key (Some template_file) report_files)).1 = [].
Proof.
  intros Hkey Hreports Hopen Hno.
  pose proof (find_placeholders_no_match doc Hno) as Hfp.
  split; [done|].
  assert (run (process w api_key (Some template_file) report_files)
          = ([Step 1; OpenDocx (upload_bytes template_file);
              UiError NoPlaceholdersFound], inl StopException)) as ->.
  { by rewrite process_run, pipeline_run, Hopen, Hfp. }
  done.
Qed.

Lemma no_placeholders_stops_witness :
  let doc := mkDocument
    [mkParagraph [mkRun "Claim form" (Some "title"); mkRun " {draft}" None]]
    [mkTable [mkRow [mkCell [mkParagraph [mkRun "[name]" None]]]]]
    [mkSection [mkParagraph [mkRun "{{}}" None]] []] in
  let w := mkCollaborators (λ _, inr doc) (λ _, inr ["page"])
             (λ _ _, Content "{}") (λ _, inr (JObject ∅)) in
  find_placeholders doc = []
  ∧ run (process w "key" (Some (mkUpload "form.docx" "PK")) [mkUpload "a.pdf" "%PDF"])
    = ([Step 1; OpenDocx "PK"; UiError NoPlaceholdersFound], inl StopException).
Proof.
  intros doc w.
  destruct (no_placeholders_stops w "key" (mkUpload "form.docx" "PK")
              [mkUpload "a.pdf" "%PDF"] doc) as (Hfp & Hrun & _).
  - discriminate.
  - discriminate.
  - reflexivity.
  - repeat constructor.
  - split; [exact Hfp|exact Hrun].
Defined.

(** The text extraction of the pipeline prolongs the trace it is given. *)
Lemma source_text_frame w report_files tr :
  source_text w report_files tr =
    (tr ++ (run (source_text w report_files)).1,
     (run (source_text w report_files)).2).
Proof.
  unfold run. destruct report_files as [|r1 [|r2 rest]].
  - unfold source_text. rewrite !bind_run, !extract_text_from_multiple_pdfs_run.
    done.
  - by rewrite !source_text_single, !extract_text_from_pdf_run.
  - by rewrite !source_text_multiple.
Qed.

Lemma downloads_opened (pdf_files : list Upload) :
  downloads (OpenPdf ∘ upload_name <$> pdf_files) = [].
Proof.
  induction pdf_files as [|f fs IH]; [reflexivity|]. rewrite fmap_cons. exact IH.
Qed.

(** C4, as stated, fails: with two reports of which the second cannot be
    read, the run goes to its end and offers a filled document. *)
Lemma extraction_failure_does_not_abort :
  let doc := mkDocument [mkParagraph [mkRun "Name: [NAME]" None]] [] [] in
  let w := mkCollaborators (λ _, inr doc)
             (λ bytes, if decide (bytes = "%PDF") then inr ["Jane Doe"]
                       else inl "cannot open broken document")
             (λ _ _, Content "{}")
             (λ _, inr (JObject {[ "NAME" := VStr "Jane Doe" ]})) in
  let out := run (process w "key" (Some (mkUpload "form.docx" "PK"))
                    [mkUpload "a.pdf" "%PDF"; mkUpload "b.pdf" "broken"]) in
  fitz_pages w "broken" = inl "cannot open broken document"
  ∧ out.2 = inr ()
  ∧ downloads out.1
    = [mkDocument [mkParagraph [mkRun "Name: Jane Doe" None]] [] []].
Proof. intros doc w out. split; [reflexivity|]. split; reflexivity. Qed.

(** C4, amended: a template that cannot be loaded, a single report that
    cannot be read, and an extraction collaborator that fails or does not
    answer with a JSON object each end the run with the error shown and no
    document offered, after one call of the collaborator at most; with two
    or more reports the text extraction never ends the run, every report is
    opened, and a report that cannot be read is recorded with the message
    of its failure. *)
Theorem failures_abort_without_output (w : Collaborators) (api_key : string)
    (template_file : Upload) (report_files : list Upload) :
  api_key ≠ EmptyString → report_files ≠ [] →
  let out := run (process w api_key (Some template_file) report_files) in
  let opened := [Step 1; OpenDocx (upload_bytes template_file)] in
  (∀ msg, docx_open w (upload_bytes template_file) = inl msg →
     out = (opened ++ [UiError (ErrorOccurred ("Error loading template: " +:+ msg))],
            inr ()))
  ∧ (∀ doc report msg,
       docx_open w (upload_bytes template_file) = inr doc →
       find_placeholders doc ≠ [] →
       report_files = [report] →
       fitz_pages w (upload_bytes report) = inl msg →
       out = (opened ++ [Step 2; OpenPdf (upload_name report);
                UiError (ErrorOccurred ("Error extracting text from PDF: " +:+ msg))],
              inr ()))
  ∧ (∀ doc reading extracted_text,
       docx_open w (upload_bytes template_file) = inr doc →
       find_placeholders doc ≠ [] →
       run (source_text w report_files) = (reading, inr extracted_text) →
       ¬ (∃ content members,
            openrouter w (prompt_of (find_placeholders doc) extracted_text) api_key
            = Content content
            ∧ json_loads w (clean_response content) = inr (JObject members)) →
       ∃ msg,
         out = (opened ++ [Step 2] ++ reading
                ++ [Step 3;
                    CallApi (prompt_of (find_placeholders doc) extracted_text);
                    UiError (ErrorOccurred msg)],
                inr ())
         ∧ downloads out.1 = [])
  ∧ (∀ report1 report2 reports,
       report_files = report1 :: report2 :: reports →
       run (source_text w report_files)
       = (OpenPdf ∘ upload_name <$> report_files,
          inr (combine (recorded w report_files [])))).
Proof.
  intros Hkey Hreports out opened. subst out opened.
  rewrite process_run, pipeline_run by done. cbv zeta. cbn [app].
  split; [|split; [|split]].
  - by intros msg ->.
  - intros doc report msg -> Hfp -> Hfail.
    destruct (find_placeholders doc) as [|ph phs]; [done|].
    by rewrite source_text_single, extract_text_from_pdf_run, Hfail.
  - intros doc reading extracted_text -> Hfp Hread Hbad.
    destruct (find_placeholders doc) as [|ph phs]; [done|].
    rewrite source_text_frame, Hread. cbn [fst snd].
    rewrite extract_fields_from_text_run. cbv zeta.
    assert (∀ l : list event,
      downloads (Step 1 :: OpenDocx (upload_bytes template_file) :: Step 2
                 :: reading ++ l) = downloads reading ++ downloads l) as Hdl.
    { intros l. unfold downloads. cbn [omap list_omap]. by rewrite omap_app. }
    assert (downloads reading = []) as Hreading.
    { destruct report_files as [|r1 [|r2 rest]]; [done| |].
      - unfold run in Hread.
        rewrite source_text_single, extract_text_from_pdf_run in Hread.
        injection Hread as <- _. reflexivity.
      - unfold run in Hread. rewrite source_text_multiple in Hread.
        injection Hread as <- _. apply (downloads_opened (r1 :: r2 :: rest)). }
    destruct (openrouter w (prompt_of (ph :: phs) extracted_text) api_key)
      as [msg|msg|content] eqn:Hcall.
    + eexists. rewrite <- !(assoc_L (++)). cbn [app fst]. split; [done|].
      by rewrite Hdl, Hreading.
    + eexists. rewrite <- !(assoc_L (++)). cbn [app fst]. split; [done|].
      by rewrite Hdl, Hreading.
    + destruct (json_loads w (clean_response content))
        as [msg|[members|type_name]] eqn:Hjson.
      * eexists. rewrite <- !(assoc_L (++)). cbn [app fst]. split; [done|].
        by rewrite Hdl, Hreading.
      * destruct Hbad. by exists content, members.
      * eexists. rewrite <- !(assoc_L (++)). cbn [app fst]. split; [done|].
        by rewrite Hdl, Hreading.
  - intros report1 report2 reports ->. unfold run.
    by rewrite source_text_multiple.
Qed.

Lemma failures_abort_without_output_witness :
  let doc := mkDocument [mkParagraph [mkRun "Name: [NAME]" None]] [] [] in
  let template := mkUpload "form.docx" "PK" in
  let report := mkUpload "a.pdf" "%PDF" in
  let w1 := mkCollaborators (λ _, inl "File is not a zip file") (λ _, inr [])
              (λ _ _, Content "{}") (λ _, inr (JObject ∅)) in
  let w2 := mkCollaborators (λ _, inr doc) (λ _, inl "cannot open broken document")
              (λ _ _, Content "{}") (λ _, inr (JObject ∅)) in
  let w3 := mkCollaborators (λ _, inr doc) (λ _, inr ["Jane Doe"])
              (λ _ _, RequestFailed "timeout") (λ _, inr (JObject ∅)) in
  run (process w1 "key" (Some template) [report])
  = ([Step 1; OpenDocx "PK";
      UiError (ErrorOccurred "Error loading template: File is not a zip file")],
     inr ())
  ∧ run (process w2 "key" (Some template) [report])
    = ([Step 1; OpenDocx "PK"; Step 2; OpenPdf "a.pdf";
        UiError (ErrorOccurred
          "Error extracting text from PDF: cannot open broken document")],
       inr ())
  ∧ downloads (run (process w3 "key" (Some template) [report])).1 = []
  ∧ run (source_text w2 [report; report])
    = ([OpenPdf "a.pdf"; OpenPdf "a.pdf"],
       inr (combine (recorded w2 [report; report] []))).
Proof.
  intros doc template report w1 w2 w3. split; [|split; [|split]].
  - destruct (failures_abort_without_output w1 "key" template [report]
                ltac:(discriminate) ltac:(discriminate)) as (H & _).
    exact (H "File is not a zip file" eq_refl).
  - destruct (failures_abort_without_output w2 "key" template [report]
                ltac:(discriminate) ltac:(discriminate)) as (_ & H & _).
    exact (H doc report "cannot open broken document" eq_refl
             ltac:(vm_compute; discriminate) eq_refl eq_refl).
  - destruct (failures_abort_without_output w3 "key" template [report]
                ltac:(discriminate) ltac:(discriminate)) as (_ & _ & H & _).
    destruct (H doc [OpenPdf "a.pdf"] (pdf_text ["Jane Doe"]) eq_refl
                ltac:(vm_compute; discriminate) eq_refl) as (msg & _ & Hdl).
    + intros (content & members & Hcall & _). discriminate Hcall.
    + exact Hdl.
  - destruct (failures_abort_without_output w2 "key" template [report; report]
                ltac:(discriminate) ltac:(discriminate)) as (_ & _ & _ & H).
    exact (H report report [] eq_refl).
Defined.

(** ** The combined source text of two reports *)

Section occurrences_facts.

Variable sub : string.
Hypothesis sub_nonempty : sub ≠ EmptyString.

Lemma occurrences_cons c s :
  occurrences sub (String c s)
  = (if String.prefix sub (String c s) then 1 else 0) + occurrences sub s.
Proof using Type. reflexivity. Qed.

Lemma occurrences_empty : occurrences sub EmptyString = 0.
Proof using sub_nonempty. simpl. by destruct sub. Qed.

(** A character that [sub] does not have cuts the text in two. *)
Variable cut : ascii.
Hypothesis sub_no_cut :
  Str.all_chars (λ c, negb (Ascii.eqb cut c)) sub = true.

Lemma prefix_cut a b :
  String.prefix sub (a +:+ String cut b) = String.prefix sub a.
Proof using sub_no_cut.
  clear sub_nonempty. revert a sub_no_cut.
  induction sub as [|x sub' IH]; intros a Hcut.
  { by rewrite !prefix_nil_l. }
  simpl in Hcut. apply andb_prop in Hcut as [Hx Hcut].
  destruct a as [|y a].
  - rewrite app_empty_l, prefix_cons. case_decide as Hxy; [|done].
    subst x. by rewrite Ascii.eqb_refl in Hx.
  - rewrite app_cons, !prefix_cons. case_decide; [by apply IH|done].
Qed.

Lemma occurrences_cut a b :
  occurrences sub (a +:+ String cut b) = occurrences sub a + occurrences sub b.
Proof using sub_nonempty sub_no_cut.
  induction a as [|y a IH].
  - rewrite app_empty_l, occurrences_cons, occurrences_empty.
    rewrite <- (app_empty_l (String cut b)), prefix_cut.
    by destruct sub.
  - rewrite app_cons, !occurrences_cons, IH.
    rewrite <- app_cons, prefix_cut. lia.
Qed.

End occurrences_facts.

Lemma nl_app (s : string) : nl +:+ s = String "010" s.
Proof. reflexivity. Qed.

Lemma occurrences_skip x sub c s :
  x ≠ c → occurrences (String x sub) (String c s) = occurrences (String x sub) s.
Proof. intros Hne. rewrite occurrences_cons, prefix_cons. by case_decide. Qed.

Lemma occurrences_match x sub s :
  occurrences (String x sub) (String x sub +:+ s)
  = 1 + occurrences (String x sub) (sub +:+ s).
Proof. by rewrite app_cons, occurrences_cons, <- app_cons, prefix_app. Qed.

(** The combined text of two entries, cut at its newlines. *)
Lemma combine_two name1 text1 name2 text2 :
  combine [(name1, text1); (name2, text2)]
  = ("File: " +:+ name1) +:+ String "010" (text1 +:+ String "010" (EmptyString
      +:+ String "010" (separator_line +:+ String "010" (EmptyString
      +:+ String "010" (("File: " +:+ name2) +:+ String "010" text2))))).
Proof.
  unfold combine, combined_separator. cbn [fmap list_fmap Str.join fst snd].
  rewrite <- !nl_app. fold separator_line. by autorewrite with str.
Qed.

Lemma occurrences_combine_two sub name1 text1 name2 text2 :
  sub ≠ EmptyString →
  Str.all_chars (λ c, negb (Ascii.eqb "010" c)) sub = true →
  occurrences sub (combine [(name1, text1); (name2, text2)])
  = occurrences sub ("File: " +:+ name1) + occurrences sub text1
    + occurrences sub separator_line
    + occurrences sub ("File: " +:+ name2) + occurrences sub text2.
Proof.
  intros Hne Hcut. rewrite combine_two.
  rewrite !(occurrences_cut sub Hne "010" Hcut), !occurrences_empty by done.
  lia.
Qed.

Lemma recorded_two w report1 report2 :
  upload_name report1 ≠ upload_name report2 →
  recorded w [report1; report2] []
  = [(upload_name report1, recorded_text w report1);
     (upload_name report2, recorded_text w report2)].
Proof.
  intros Hne. unfold recorded. cbn [foldl dict_set].
  destruct (String.eqb_spec (upload_name report2) (upload_name report1)); [|done].
  congruence.
Qed.

(** C9, as stated, fails: two reports with the same file name leave a single
    entry, without separator, and a report whose text has the separator
    line brings a second one. *)
Lemma two_reports_not_always_separated :
  let w := mkCollaborators (λ _, inl "") (λ bytes, inr [bytes])
             (λ _ _, Content "{}") (λ _, inr (JObject ∅)) in
  ((run (source_text w [mkUpload "report.pdf" "first"; mkUpload "report.pdf" "second"])).2
   = inr ("File: report.pdf" +:+ nl +:+ "--- Page 1 ---" +:+ nl +:+ "second")
   ∧ occurrences separator_line
       ("File: report.pdf" +:+ nl +:+ "--- Page 1 ---" +:+ nl +:+ "second") = 0
   ∧ occurrences "File: "
       ("File: report.pdf" +:+ nl +:+ "--- Page 1 ---" +:+ nl +:+ "second") = 1)
  ∧ (∃ combined,
       (run (source_text w [mkUpload "a.pdf" "=== COMBINED REPORTS ===";
                            mkUpload "b.pdf" "File: c.pdf"])).2 = inr combined
       ∧ occurrences separator_line combined = 2
       ∧ occurrences "File: " combined = 3).
Proof.
  intros w. split.
  - split; [reflexivity|]. split; reflexivity.
  - eexists. split; [reflexivity|]. split; reflexivity.
Qed.

(** C9, amended: for two reports with different file names the combined
    text is the entry of the first report, the separator, and the entry of
    the second report, each entry being [File: ], the name, a newline and
    the recorded text; when the names and the recorded texts have no
    occurrence of the separator line themselves, the combined text has
    exactly one, and when they have no occurrence of [File: ], it has
    exactly two. *)
Theorem two_reports_combined (w : Collaborators) (report1 report2 : Upload) :
  upload_name report1 ≠ upload_name report2 →
  let name1 := upload_name report1 in
  let name2 := upload_name report2 in
  let text1 := recorded_text w report1 in
  let text2 := recorded_text w report2 in
  let combined :=
    ("File: " +:+ name1 +:+ nl +:+ text1)
    +:+ (nl +:+ nl +:+ "=== COMBINED REPORTS ===" +:+ nl +:+ nl)
    +:+ ("File: " +:+ name2 +:+ nl +:+ text2) in
  run (source_text w [report1; report2])
  = ([OpenPdf name1; OpenPdf name2], inr combined)
  ∧ (Forall (λ s, occurrences "=== COMBINED REPORTS ===" s = 0)
            [name1; text1; name2; text2] →
     occurrences "=== COMBINED REPORTS ===" combined = 1)
  ∧ (Forall (λ s, occurrences "File: " s = 0) [name1; text1; name2; text2] →
     occurrences "File: " combined = 2).
Proof.
  intros Hne name1 name2 text1 text2 combined.
  assert (combined = combine [(name1, text1); (name2, text2)]) as -> by done.
  split; [|split].
  - unfold run. by rewrite source_text_multiple, recorded_two.
  - intros H. rewrite !Forall_cons in H. destruct H as (H1 & H2 & H3 & H4 & _).
    rewrite occurrences_combine_two by done.
    autorewrite with str. rewrite !occurrences_skip by done.
    rewrite H1, H2, H3, H4. reflexivity.
  - intros H. rewrite !Forall_cons in H. destruct H as (H1 & H2 & H3 & H4 & _).
    rewrite occurrences_combine_two by done.
    rewrite !occurrences_match. autorewrite with str.
    rewrite !occurrences_skip by done.
    rewrite H1, H2, H3, H4. reflexivity.
Qed.

Lemma two_reports_combined_witness :
  let w := mkCollaborators (λ _, inl "") (λ bytes, inr [bytes])
             (λ _ _, Content "{}") (λ _, inr (JObject ∅)) in
  let combined :=
    "File: a.pdf" +:+ nl +:+ "--- Page 1 ---" +:+ nl +:+ "Jane Doe"
    +:+ nl +:+ nl +:+ "=== COMBINED REPORTS ===" +:+ nl +:+ nl
    +:+ "File: b.pdf" +:+ nl +:+ "--- Page 1 ---" +:+ nl +:+ "2025-01-15" in
  run (source_text w [mkUpload "a.pdf" "Jane Doe"; mkUpload "b.pdf" "2025-01-15"])
  = ([OpenPdf "a.pdf"; OpenPdf "b.pdf"], inr combined)
  ∧ occurrences "=== COMBINED REPORTS ===" combined = 1
  ∧ occurrences "File: " combined = 2.
Proof.
  intros w combined.
  destruct (two_reports_combined w (mkUpload "a.pdf" "Jane Doe")
              (mkUpload "b.pdf" "2025-01-15") ltac:(discriminate))
    as (Hrun & Hsep & Hfile).
  split; [exact Hrun|]. split.
  - apply Hsep. repeat constructor.
  - apply Hfile. repeat constructor.
Defined.

(** ** Substitution of several fields: the order of the fields *)

(** C5, as stated, fails.  The tokens of two fields may overlap in a text,
    and a value may complete a token of another field with the text around
    it; in both cases the final text depends on the order of the fields,
    although no value contains a placeholder of another field. *)
Lemma substitution_order_matters :
  let doc1 := mkDocument [mkParagraph [mkRun "[A][B]" None]] [] [] in
  let doc2 := mkDocument [mkParagraph [mkRun "[A]B]" None]] [] [] in
  (text <$> document_paragraphs
     (replace_placeholders doc1 [("A", VStr "x"); ("A][B", VStr "y")]) = ["x[B]"]
   ∧ text <$> document_paragraphs
       (replace_placeholders doc1 [("A][B", VStr "y"); ("A", VStr "x")]) = ["y"])
  ∧ (text <$> document_paragraphs
       (replace_placeholders doc2 [("A", VStr "["); ("B", VStr "x")]) = ["x"]
     ∧ text <$> document_paragraphs
         (replace_placeholders doc2 [("B", VStr "x"); ("A", VStr "[")]) = ["[B]"]).
Proof. intros doc1 doc2. split; split; reflexivity. Qed.

(** *** The substitution of a field on the text *)

Lemma text_replace_in_paragraph p name value :
  text (replace_in_paragraph p name value)
  = substitute_text name (py_str value) (text p).
Proof.
  rewrite replace_in_paragraph_matching. unfold substitute_text.
  destruct (matching_form name (text p)); [apply text_write_text|done].
Qed.

Lemma document_paragraphs_replace_field doc name value :
  document_paragraphs (replace_field doc name value)
  = (λ p, replace_in_paragraph p name value) <$> document_paragraphs doc.
Proof.
  unfold document_paragraphs, replace_field. cbn [paragraphs tables sections].
  rewrite !fmap_app. f_equal. f_equal.
  - induction (tables doc) as [|t ts IH]; [done|].
    rewrite fmap_cons, !bind_cons, fmap_app, IH. f_equal.
    cbn [rows]. clear IH. induction (rows t) as [|r rs IH]; [done|].
    rewrite fmap_cons, !bind_cons, fmap_app, IH. f_equal.
    cbn [cells]. clear IH. induction (cells r) as [|c cs IH]; [done|].
    by rewrite fmap_cons, !bind_cons, fmap_app, IH.
  - induction (sections doc) as [|s ss IH]; [done|].
    rewrite fmap_cons, !bind_cons, fmap_app, IH. f_equal.
    cbn [header footer]. by rewrite fmap_app.
Qed.

Lemma text_replace_placeholders doc (data : dict pyvalue) :
  text <$> document_paragraphs (replace_placeholders doc data)
  = (λ p, foldl (λ txt item, substitute_text item.1 (py_str item.2) txt)
                (text p) data) <$> document_paragraphs doc.
Proof.
  unfold replace_placeholders. revert doc.
  induction data as [|[name value] data IH]; intros doc; [done|].
  cbn [foldl fst snd]. rewrite IH, document_paragraphs_replace_field.
  rewrite <- list_fmap_compose. apply list_fmap_ext. intros _ p _.
  cbn [compose]. by rewrite text_replace_in_paragraph.
Qed.

(** *** Scanning a text in which no occurrence starts *)

Lemma contains_empty tok : tok ≠ EmptyString → Str.contains tok EmptyString = false.
Proof. intros Hne. simpl. by destruct tok. Qed.

Lemma contains_free tok s rest :
  free_start tok s rest = true →
  Str.contains tok (s +:+ rest) = Str.contains tok rest.
Proof.
  induction s as [|c s IH]; [done|].
  cbn [free_start]. intros [Hp Hs]%andb_prop. apply negb_true_iff in Hp.
  rewrite app_cons in Hp |- *. cbn [Str.contains]. by rewrite Hp, IH.
Qed.

Lemma replace_free tok new s rest :
  free_start tok s rest = true →
  Str.replace_from tok new 0 (s +:+ rest)
  = s +:+ Str.replace_from tok new 0 rest.
Proof.
  induction s as [|c s IH]; [done|].
  cbn [free_start]. intros [Hp Hs]%andb_prop. apply negb_true_iff in Hp.
  rewrite app_cons in Hp |- *. cbn [Str.replace_from]. by rewrite Hp, IH.
Qed.

Lemma replace_from_skip tok new a rest :
  Str.replace_from tok new (String.length a) (a +:+ rest)
  = Str.replace_from tok new 0 rest.
Proof. induction a as [|c a IH]; [by destruct rest|]. by rewrite app_cons. Qed.

Lemma replace_match tok new rest :
  tok ≠ EmptyString →
  Str.replace_from tok new 0 (tok +:+ rest)
  = new +:+ Str.replace_from tok new 0 rest.
Proof.
  intros Hne. pose proof (prefix_app tok rest) as Hp.
  destruct tok as [|x tl] eqn:Htok; [done|].
  rewrite app_cons in Hp |- *. cbn [Str.replace_from]. rewrite Hp.
  replace (String.length (String x tl) - 1) with (String.length tl)
    by (simpl; lia).
  apply (f_equal (String.app new)), replace_from_skip.
Qed.

(** A token that starts with an opening delimiter does not start in a text
    without opening delimiters. *)
Lemma free_no_opener tok s rest :
  (∃ o tl, tok = String o tl ∧ is_opener o = true) →
  Str.all_chars (λ c, negb (is_opener c)) s = true →
  free_start tok s rest = true.
Proof.
  intros (o & tl & -> & Ho). induction s as [|c s IH]; [done|].
  cbn [Str.all_chars free_start]. intros [Hc Hs]%andb_prop.
  rewrite app_cons, prefix_cons, IH by done. case_decide; [|done].
  subst c. by rewrite Ho in Hc.
Qed.

Lemma free_start_app tok s1 s2 rest :
  free_start tok (s1 +:+ s2) rest
  = free_start tok s1 (s2 +:+ rest) && free_start tok s2 rest.
Proof.
  induction s1 as [|c s1 IH]; [done|].
  rewrite !app_cons. cbn [free_start].
  by rewrite IH, !app_cons, app_assoc_str, andb_assoc.
Qed.

(** *** The tokens in a text of pieces *)

Lemma plain_no_opener s :
  plain s = true → Str.all_chars (λ c, negb (is_opener c)) s = true.
Proof.
  apply all_chars_impl. intros c Hc. apply negb_true_iff in Hc.
  apply negb_true_iff. unfold is_delimiter in Hc. unfold is_opener.
  destruct (Ascii.eqb c "{"), (Ascii.eqb c "["); try done.
  by rewrite !orb_true_r in Hc.
Qed.

Lemma plain_cons c s :
  plain (String c s) = true ↔ is_delimiter c = false ∧ plain s = true.
Proof.
  unfold plain. cbn [Str.all_chars]. rewrite andb_true_iff, negb_true_iff. done.
Qed.

(** Two plain names that are followed by delimiters: one text is a prefix
    of the other only when the names are the same. *)
Lemma prefix_name k n d x d' y :
  plain k = true → plain n = true →
  is_delimiter d = true → is_delimiter d' = true →
  String.prefix (k +:+ String d x) (n +:+ String d' y) = true →
  k = n ∧ d = d' ∧ String.prefix x y = true.
Proof.
  intros Hk Hn Hd Hd'. revert n Hn.
  induction k as [|a k IH]; intros n Hn.
  - destruct n as [|b n]; rewrite ?app_empty_l, ?app_cons, prefix_cons.
    + by case_decide.
    + case_decide; [|done]. subst b.
      apply plain_cons in Hn as [Hb _]. congruence.
  - apply plain_cons in Hk as [Ha Hk].
    destruct n as [|b n]; rewrite ?app_empty_l, !app_cons, prefix_cons.
    + case_decide; [|done]. subst a. congruence.
    + apply plain_cons in Hn as [_ Hn]. case_decide; [|done]. subst b.
      intros (-> & -> & ?)%IH; done.
Qed.

Lemma token_opener f name :
  ∃ o tl, token f name = String o tl ∧ is_opener o = true.
Proof. destruct f; by eexists _, _. Qed.

Lemma token_nonempty f name : token f name ≠ EmptyString.
Proof. by destruct f. Qed.

Lemma token_inj f name f' name' :
  plain name = true → plain name' = true →
  token f name = token f' name' → f = f' ∧ name = name'.
Proof.
  intros Hk Hn Heq.
  pose proof (prefix_app (token f name) EmptyString) as Hp.
  rewrite app_empty_r in Hp. rewrite Heq in Hp at 2.
  destruct f, f'; cbv [token double_token bracket_token brace_token] in Hp;
    autorewrite with str in Hp; rewrite ?prefix_cons in Hp;
    repeat (case_decide; [|done]); try done.
  - by apply prefix_name in Hp as (-> & _ & _).
  - change (String "{" (name +:+ String "}" (String "}" EmptyString)))
      with (EmptyString +:+ String "{" (name +:+ String "}" (String "}" EmptyString)))
      in Hp.
    by apply prefix_name in Hp as (_ & ? & _).
  - by apply prefix_name in Hp as (-> & _ & _).
  - change (String "{" (name' +:+ String "}" (String "}" EmptyString)))
      with (EmptyString +:+ String "{" (name' +:+ String "}" (String "}" EmptyString)))
      in Hp.
    by apply prefix_name in Hp as (_ & ? & _).
  - by apply prefix_name in Hp as (-> & _ & _).
Qed.

Lemma prefix_other_name k n d x d' y :
  plain k = true → plain n = true →
  is_delimiter d = true → is_delimiter d' = true → k ≠ n →
  String.prefix (k +:+ String d x) (n +:+ String d' y) = false.
Proof.
  intros Hk Hn Hd Hd' Hne.
  destruct (String.prefix _ _) eqn:Hp; [|done].
  by apply prefix_name in Hp as (? & _).
Qed.

Lemma prefix_opener_name n x y :
  plain n = true →
  String.prefix (String "{" x) (n +:+ String "}" y) = false.
Proof.
  intros Hn. change (String "{" x) with (EmptyString +:+ String "{" x).
  destruct (String.prefix _ _) eqn:Hp; [|done].
  by apply prefix_name in Hp as (_ & ? & _).
Qed.

Lemma prefix_name_opener k x y :
  plain k = true →
  String.prefix (k +:+ String "}" x) (String "{" y) = false.
Proof.
  intros Hk. change (String "{" y) with (EmptyString +:+ String "{" y).
  destruct (String.prefix _ _) eqn:Hp; [|done].
  by apply prefix_name in Hp as (_ & ? & _).
Qed.

(** No occurrence of the token of a field starts in a piece that is not a
    placeholder of that field in that form; for the single-brace token the
    double-brace placeholder of the field, which contains it, is excluded
    too. *)
Lemma piece_free f k g rest :
  plain k = true → plain_piece g →
  g ≠ Slot f k → (f = Brace → g ≠ Slot Double k) →
  free_start (token f k) (render_piece g) rest = true.
Proof.
  intros Hk Hg Hne Hside. destruct g as [s|f' n]; cbn [render_piece plain_piece] in *.
  { apply free_no_opener; [apply token_opener|by apply plain_no_opener]. }
  assert (∀ closer,
    Str.all_chars (λ c, negb (is_opener c)) closer = true →
    free_start (token f k) (n +:+ closer) rest = true) as Hinside.
  { intros closer Hcloser. apply free_no_opener; [apply token_opener|].
    by rewrite all_chars_app, plain_no_opener. }
  destruct f, f'; cbv [token double_token bracket_token brace_token] in *;
    autorewrite with str in *; cbn [free_start];
    rewrite ?app_cons, ?prefix_cons.
  all: repeat (case_decide; [|try done]).
  all: try done.
  all: rewrite ?Hinside by done.
  all: autorewrite with str.
  all: rewrite ?prefix_opener_name, ?prefix_name_opener by done.
  all: rewrite ?prefix_other_name by (done || congruence).
  all: try done.
  - rewrite prefix_other_name; [done..|]. intros ->. by apply Hside.
Qed.

Lemma render_cons g gs : render (g :: gs) = render_piece g +:+ render gs.
Proof. reflexivity. Qed.

Lemma contains_prefix a s : String.prefix a s = true → Str.contains a s = true.
Proof. intros Hp. destruct s; [done|]. cbn [Str.contains]. by rewrite Hp. Qed.

Lemma replace_nonempty tok new s :
  tok ≠ EmptyString → Str.replace tok new s = Str.replace_from tok new 0 s.
Proof. by destruct tok. Qed.

Section pieces.

Variables (f : form) (k : string).
Hypothesis k_plain : plain k = true.

Lemma contains_render_present gs :
  Slot f k ∈ gs → Str.contains (token f k) (render gs) = true.
Proof using Type.
  induction gs as [|g gs IH]; [by intros ?%elem_of_nil|].
  rewrite render_cons. intros [<-|Hin]%elem_of_cons.
  - apply contains_prefix, prefix_app.
  - by apply contains_app_r, IH.
Qed.

Lemma contains_render_absent gs :
  Forall plain_piece gs →
  Slot f k ∉ gs → (f = Brace → Slot Double k ∉ gs) →
  Str.contains (token f k) (render gs) = false.
Proof using k_plain.
  induction gs as [|g gs IH]; intros Hgs Hout Hside.
  { apply contains_empty, token_nonempty. }
  apply Forall_cons in Hgs as [Hg Hgs]. apply not_elem_of_cons in Hout as [? ?].
  rewrite render_cons, contains_free.
  - apply IH; [done..|]. intros Hf. by apply Hside, not_elem_of_cons in Hf as [? ?].
  - apply piece_free; [done..|]. intros Hf. by apply Hside, not_elem_of_cons in Hf as [? ?].
Qed.

Lemma replace_render value gs :
  Forall plain_piece gs → (f = Brace → Slot Double k ∉ gs) →
  Str.replace (token f k) value (render gs)
  = render (fill_slot f k value <$> gs).
Proof using k_plain.
  rewrite replace_nonempty by apply token_nonempty.
  induction gs as [|g gs IH]; intros Hgs Hside; [done|].
  apply Forall_cons in Hgs as [Hg Hgs].
  assert (f = Brace → Slot Double k ∉ gs) as Hside'.
  { intros Hf. by apply Hside, not_elem_of_cons in Hf as [? ?]. }
  rewrite fmap_cons, !render_cons. unfold fill_slot at 1.
  case_decide as Hgk.
  - subst g. cbn [render_piece].
    rewrite replace_match by apply token_nonempty. by rewrite IH.
  - rewrite replace_free, IH; [done..|].
    apply piece_free; [done..|]. intros Hf.
    by apply Hside, not_elem_of_cons in Hf as [? ?].
Qed.

End pieces.

Lemma matching_form_render k gs :
  plain k = true → Forall plain_piece gs →
  matching_form k (render gs) = (λ f, token f k) <$> present_form k gs.
Proof.
  intros Hk Hgs. unfold matching_form, present_form.
  change (double_token k) with (token Double k).
  change (bracket_token k) with (token Bracket k).
  change (brace_token k) with (token Brace k).
  destruct (decide (Slot Double k ∈ gs)) as [Hd|Hd].
  { by rewrite contains_render_present. }
  rewrite (contains_render_absent Double) by done.
  destruct (decide (Slot Bracket k ∈ gs)) as [Hb|Hb].
  { by rewrite contains_render_present. }
  rewrite (contains_render_absent Bracket) by done.
  destruct (decide (Slot Brace k ∈ gs)) as [Hs|Hs].
  { by rewrite contains_render_present. }
  by rewrite (contains_render_absent Brace).
Qed.

(** The substitution of a field in a well-delimited text is the
    substitution on its pieces. *)
Lemma substitute_text_render k value gs :
  plain k = true → Forall plain_piece gs →
  substitute_text k value (render gs) = render (substitute k value gs).
Proof.
  intros Hk Hgs. unfold substitute_text, substitute.
  rewrite matching_form_render by done.
  destruct (present_form k gs) as [f|] eqn:Hf; [|done].
  cbn [fmap option_fmap option_map]. apply replace_render; [done..|].
  intros ->. unfold present_form in Hf. by case_decide.
Qed.

Lemma substitute_plain k value gs :
  plain value = true → Forall plain_piece gs →
  Forall plain_piece (substitute k value gs).
Proof.
  intros Hv Hgs. unfold substitute. destruct (present_form k gs) as [f|]; [|done].
  apply Forall_fmap. eapply Forall_impl; [done|].
  intros g Hg. cbn [compose]. unfold fill_slot. by case_decide.
Qed.

Lemma elem_of_fill_slot f k f' k' value (gs : list piece) :
  k ≠ k' → Slot f k ∈ fill_slot f' k' value <$> gs ↔ Slot f k ∈ gs.
Proof.
  intros Hne. rewrite list_elem_of_fmap. split.
  - intros (g & Hg & Hin). unfold fill_slot in Hg. case_decide; [done|]. by subst g.
  - intros Hin. exists (Slot f k). split; [|done].
    unfold fill_slot. case_decide; [congruence|done].
Qed.

Lemma present_form_substitute k k' value (gs : list piece) :
  k ≠ k' → present_form k (substitute k' value gs) = present_form k gs.
Proof.
  intros Hne. unfold substitute.
  destruct (present_form k' gs) as [f'|]; [|done].
  unfold present_form.
  rewrite (decide_ext _ _ _ _ (elem_of_fill_slot Double k f' k' value gs Hne)).
  rewrite (decide_ext _ _ _ _ (elem_of_fill_slot Bracket k f' k' value gs Hne)).
  by rewrite (decide_ext _ _ _ _ (elem_of_fill_slot Brace k f' k' value gs Hne)).
Qed.

Lemma fill_slot_comm f k value f' k' value' g :
  k ≠ k' →
  fill_slot f k value (fill_slot f' k' value' g)
  = fill_slot f' k' value' (fill_slot f k value g).
Proof.
  intros Hne. unfold fill_slot. repeat case_decide; congruence.
Qed.

(** The substitutions of two different fields commute on the pieces. *)
Lemma substitute_comm k value k' value' gs :
  k ≠ k' →
  substitute k value (substitute k' value' gs)
  = substitute k' value' (substitute k value gs).
Proof.
  intros Hne. unfold substitute at 1 3.
  rewrite !present_form_substitute by done.
  unfold substitute.
  destruct (present_form k gs) as [f|], (present_form k' gs) as [f'|]; try done.
  rewrite <- !list_fmap_compose. apply list_fmap_ext. intros _ g _.
  cbn [compose]. by apply fill_slot_comm.
Qed.

Lemma foldl_substitute_text data gs :
  plain_mapping data → Forall plain_piece gs →
  foldl (λ txt item, substitute_text item.1 (py_str item.2) txt) (render gs) data
  = render (substitute_all data gs).
Proof.
  unfold plain_mapping, substitute_all. revert gs.
  induction data as [|[k v] data IH]; intros gs Hdata Hgs; [done|].
  apply Forall_cons in Hdata as [[Hk Hv] Hdata]. cbn [foldl fst snd] in *.
  rewrite substitute_text_render by done.
  apply IH; [done|]. by apply substitute_plain.
Qed.

Lemma substitute_all_perm data data' gs :
  NoDup data.*1 → data ≡ₚ data' →
  substitute_all data gs = substitute_all data' gs.
Proof.
  intros Hnodup Hperm. revert gs Hnodup. unfold substitute_all.
  induction Hperm as [|x l l' _ IH|x y l|l1 l2 l3 H12 IH12 H23 IH23];
    intros gs Hnodup.
  - done.
  - cbn [foldl]. apply IH. rewrite fmap_cons in Hnodup.
    by apply NoDup_cons in Hnodup as [_ ?].
  - cbn [foldl]. f_equal. apply substitute_comm.
    rewrite !fmap_cons in Hnodup. apply NoDup_cons in Hnodup as [Hin _].
    intros Heq. apply Hin. rewrite Heq. apply list_elem_of_here.
  - rewrite IH12 by done. apply IH23. by rewrite <- H12.
Qed.

(** C5, amended: when every paragraph text is made of text without
    delimiter characters and of placeholders with names without delimiter
    characters, and the field names and the values of the mapping have no
    delimiter character, every order of the fields gives the same final
    text in every paragraph. *)
Theorem replace_placeholders_order_independent (doc : Document)
    (data data' : dict pyvalue) :
  Forall (λ p, well_delimited (text p)) (document_paragraphs doc) →
  plain_mapping data →
  NoDup data.*1 →
  data' ≡ₚ data →
  text <$> document_paragraphs (replace_placeholders doc data')
  = text <$> document_paragraphs (replace_placeholders doc data).
Proof.
  intros Hdoc Hdata Hnodup Hperm.
  assert (plain_mapping data') as Hdata' by (unfold plain_mapping; by rewrite Hperm).
  rewrite !text_replace_placeholders.
  apply Forall_fmap_ext_1. eapply Forall_impl; [exact Hdoc|].
  intros p (gs & Hgs & ->).
  rewrite !foldl_substitute_text by done.
  f_equal. symmetry. by apply substitute_all_perm.
Qed.

Lemma replace_placeholders_order_independent_witness :
  let doc := mkDocument
    [mkParagraph [mkRun "Claimant: [CLAIMANTNAME], " (Some "bold");
                  mkRun "Date: {{AccidentDate}}" None]]
    [mkTable [mkRow [mkCell [mkParagraph [mkRun "{CLAIMANTNAME}" None]]]]]
    [mkSection [mkParagraph [mkRun "{{AccidentDate}} [AccidentDate]" None]] []] in
  text <$> document_paragraphs
    (replace_placeholders doc
       [("AccidentDate", VStr "2025-01-15"); ("CLAIMANTNAME", VStr "Jane Doe")])
  = text <$> document_paragraphs
      (replace_placeholders doc
         [("CLAIMANTNAME", VStr "Jane Doe"); ("AccidentDate", VStr "2025-01-15")]).
Proof.
  intros doc. apply replace_placeholders_order_independent.
  - repeat constructor.
    + exists [Literal "Claimant: "; Slot Bracket "CLAIMANTNAME"; Literal ", Date: ";
              Slot Double "AccidentDate"].
      split; [repeat constructor|reflexivity].
    + exists [Slot Brace "CLAIMANTNAME"]. split; [repeat constructor|reflexivity].
    + exists [Slot Double "AccidentDate"; Literal " "; Slot Bracket "AccidentDate"].
      split; [repeat constructor|reflexivity].
  - repeat constructor.
  - apply (bool_decide_unpack _). vm_compute. exact I.
  - apply perm_swap.
Defined.


(** * Further properties of the code *)

(** ** The scanner: what its names are and where they come from *)

Lemma captured_shape name txt :
  captured name txt →
  name ≠ EmptyString ∧ Str.all_chars not_close_brace name = true.
Proof.
  intros (pattern & Hpat & Hin). unfold patterns in Hpat.
  apply elem_of_cons in Hpat as [->|Hpat]; [by eapply findall_double_capture|].
  apply elem_of_cons in Hpat as [->|Hpat].
  { apply findall_delimited_capture in Hin as [? Hup]. split; [done|].
    revert Hup. apply all_chars_impl, upper_or_underscore_not_close. }
  apply list_elem_of_singleton in Hpat as ->.
  apply findall_delimited_capture in Hin as [? Hup]. split; [done|].
  revert Hup. apply all_chars_impl, upper_or_underscore_not_close.
Qed.

(** X1: a name that [find_placeholders] returns is never empty and never
    has a closing brace. *)
Theorem find_placeholders_names (doc : Document) (name : string) :
  name ∈ find_placeholders doc →
  name ≠ EmptyString ∧ Str.all_chars not_close_brace name = true.
Proof.
  intros (p & _ & Hcap)%elem_of_find_placeholders. by eapply captured_shape.
Qed.

Lemma find_placeholders_names_witness :
  "Policy No" ≠ EmptyString
  ∧ Str.all_chars not_close_brace "Policy No" = true.
Proof.
  apply (find_placeholders_names
           (mkDocument [mkParagraph [mkRun "{{Policy No}} [ID]" None]] [] [])).
  vm_compute. apply list_elem_of_further, list_elem_of_here.
Defined.

(** Two sorted lists without duplicates and with the same members. *)
Lemma sorted_lists_equal (l1 l2 : list string) :
  StronglySorted String.le l1 → StronglySorted String.le l2 →
  NoDup l1 → NoDup l2 → (∀ x, x ∈ l1 ↔ x ∈ l2) → l1 = l2.
Proof.
  intros Hs1 Hs2 Hn1 Hn2 Hmem.
  apply (StronglySorted_unique String.le); [done..|].
  by apply NoDup_Permutation.
Qed.

(** X2: the result of the scan depends on the texts of the paragraphs only,
    not on the region a paragraph is in, on the order of the paragraphs, on
    repetitions, or on the way a text is cut into runs. *)
Theorem find_placeholders_texts (doc doc' : Document) :
  (∀ txt, txt ∈ text <$> document_paragraphs doc
          ↔ txt ∈ text <$> document_paragraphs doc') →
  find_placeholders doc = find_placeholders doc'.
Proof.
  intros Htexts.
  assert (∀ d d', (∀ txt, txt ∈ text <$> document_paragraphs d
                          → txt ∈ text <$> document_paragraphs d') →
          ∀ name, name ∈ find_placeholders d → name ∈ find_placeholders d') as Hsub.
  { intros d d' Hdd name (p & Hp & Hcap)%elem_of_find_placeholders.
    apply elem_of_document_paragraphs in Hp.
    destruct (proj1 (list_elem_of_fmap _ _ _) (Hdd (text p)
      ltac:(apply list_elem_of_fmap; by exists p))) as (p' & Heq & Hp').
    apply elem_of_find_placeholders. exists p'.
    split; [by apply elem_of_document_paragraphs|by rewrite <- Heq]. }
  apply sorted_lists_equal;
    try apply sorted_is_sorted; try apply NoDup_sorted.
  intros name. split; apply Hsub; intros txt; apply Htexts.
Qed.

Lemma find_placeholders_texts_witness :
  find_placeholders
    (mkDocument [mkParagraph [mkRun "Name: [NA" (Some "bold"); mkRun "ME]" None];
                 mkParagraph [mkRun "{{Date}}" None]] [] [])
  = find_placeholders
      (mkDocument []
         [mkTable [mkRow [mkCell [mkParagraph [mkRun "{{Date}}" None]]]]]
         [mkSection [mkParagraph [mkRun "Name: [NAME]" None]]
                    [mkParagraph [mkRun "{{Da" None; mkRun "te}}" (Some "italic")]]]).
Proof.
  apply find_placeholders_texts. intros txt. vm_compute. split.
  - intros [->|[->|[]%elem_of_nil]%elem_of_cons]%elem_of_cons.
    + apply list_elem_of_further, list_elem_of_here.
    + apply list_elem_of_here.
  - intros [->|[->|[->|[]%elem_of_nil]%elem_of_cons]%elem_of_cons]%elem_of_cons.
    + apply list_elem_of_further, list_elem_of_here.
    + apply list_elem_of_here.
    + apply list_elem_of_further, list_elem_of_here.
Defined.

(** *** Every scanned name can be substituted *)

(** A capture of [findall] comes from a match at some position of the text. *)
Lemma findall_from_position r skip s x :
  x ∈ Re.findall_from r skip s →
  ∃ pre s' n, s = pre +:+ s' ∧ Re.match_here r s' = Some (x, n).
Proof.
  revert skip. induction s as [|c s IH]; intros skip; cbn [Re.findall_from].
  { by intros ?%elem_of_nil. }
  assert (∀ k, x ∈ Re.findall_from r k s →
    ∃ pre s' n, String c s = pre +:+ s' ∧ Re.match_here r s' = Some (x, n)) as Hlater.
  { intros k (pre & s' & n & -> & Hm)%IH. by exists (String c pre), s', n. }
  destruct skip as [|k]; [|apply Hlater].
  destruct (Re.match_here r (String c s)) as [[cap n]|] eqn:Hm; [|apply Hlater].
  intros [->|Hin]%elem_of_cons; [|by eapply Hlater].
  by exists EmptyString, (String c s), n.
Qed.

(** The group of a match is followed by a match of the rest of the
    pattern. *)
Lemma plus_greedy_inv cls k s cap n :
  Re.plus_greedy cls k s = Some (cap, n) →
  ∃ rest c m, s = cap +:+ rest ∧ k rest = Some (c, m).
Proof.
  revert cap n. induction s as [|a s IH]; intros cap n; cbn [Re.plus_greedy]; [done|].
  destruct (cls a); [|done].
  destruct (Re.plus_greedy cls k s) as [[cap' n']|] eqn:Hrec.
  - intros [= <- <-]. destruct (IH _ _ eq_refl) as (rest & c & m & -> & Hk).
    by exists rest, c, m.
  - destruct (k s) as [[c m]|] eqn:Hk; [|done].
    intros [= <- <-]. by exists s, c, m.
Qed.

Lemma match_delimited_prefix (o c : ascii) cls s x n :
  Re.match_here [Re.Lit o; Re.GroupPlus cls; Re.Lit c] s = Some (x, n) →
  String.prefix (String o (x +:+ String c EmptyString)) s = true.
Proof.
  intros (s1 & m1 & -> & Hm & _)%match_here_lit_inv.
  rewrite match_here_group in Hm.
  apply plus_greedy_inv in Hm as (rest & c' & m & -> & Hrest).
  apply match_here_lit_inv in Hrest as (rest' & ? & -> & _ & _).
  rewrite prefix_cons. case_decide; [|done].
  replace (x +:+ String c rest') with ((x +:+ String c EmptyString) +:+ rest')
    by by autorewrite with str.
  apply prefix_app.
Qed.

Lemma match_double_prefix s x n :
  Re.match_here pattern_double s = Some (x, n) →
  String.prefix (double_token x) s = true.
Proof.
  intros (s1 & m1 & -> & Hm & _)%match_here_lit_inv.
  apply match_here_lit_inv in Hm as (s2 & m2 & -> & Hm & _).
  rewrite match_here_group in Hm.
  apply plus_greedy_inv in Hm as (rest & c' & m & -> & Hrest).
  apply match_here_lit_inv in Hrest as (rest1 & ? & -> & Hrest & _).
  apply match_here_lit_inv in Hrest as (rest2 & ? & -> & _ & _).
  unfold double_token. autorewrite with str. rewrite !prefix_cons.
  repeat (case_decide; [|done]).
  replace (x +:+ String "}" (String "}" rest2))
    with ((x +:+ String "}" (String "}" EmptyString)) +:+ rest2)
    by by autorewrite with str.
  apply prefix_app.
Qed.

(** A name captured on a text stands in the text in the form of the pattern
    that captured it. *)
Lemma captured_token name txt :
  captured name txt → ∃ f, Str.contains (token f name) txt = true.
Proof.
  intros (pattern & Hpat & Hin). unfold patterns in Hpat.
  apply findall_from_position in Hin as (pre & s' & n & -> & Hm).
  assert (∀ tok, String.prefix tok s' = true →
                 Str.contains tok (pre +:+ s') = true) as Hpre.
  { intros tok Htok. by apply contains_app_r, contains_prefix. }
  apply elem_of_cons in Hpat as [->|Hpat].
  { exists Double. apply Hpre. by eapply match_double_prefix. }
  apply elem_of_cons in Hpat as [->|Hpat].
  { exists Bracket. apply Hpre. by apply match_delimited_prefix in Hm. }
  apply list_elem_of_singleton in Hpat as ->.
  exists Brace. apply Hpre. by apply match_delimited_prefix in Hm.
Qed.

Lemma matching_form_contains f name txt :
  Str.contains (token f name) txt = true → is_Some (matching_form name txt).
Proof.
  unfold matching_form. intros Hc.
  destruct (Str.contains (double_token name) txt) eqn:Hd; [by eexists|].
  destruct (Str.contains (bracket_token name) txt) eqn:Hb; [by eexists|].
  destruct (Str.contains (brace_token name) txt) eqn:Hs; [by eexists|].
  destruct f; cbn [token] in Hc; congruence.
Qed.

(** X3: every name that [find_placeholders] returns stands in some
    paragraph of the document in one of the three forms that
    [replace_in_paragraph] looks for, so that the substitution of a scanned
    field always finds a paragraph to rewrite. *)
Theorem scanned_names_are_replaceable (doc : Document) (name : string)
    (value : pyvalue) :
  name ∈ find_placeholders doc →
  ∃ p token,
    in_document p doc
    ∧ matching_form name (text p) = Some token
    ∧ replace_in_paragraph p name value
      = write_text p (Str.replace token (py_str value) (text p)).
Proof.
  intros (p & Hp & Hcap)%elem_of_find_placeholders.
  apply captured_token in Hcap as [f Hc].
  apply matching_form_contains in Hc as [token Htoken].
  exists p, token. split; [done|]. split; [done|].
  by rewrite replace_in_paragraph_matching, Htoken.
Qed.

Lemma scanned_names_are_replaceable_witness :
  let doc := mkDocument []
    [mkTable [mkRow [mkCell [mkParagraph [mkRun "Total: {AMOUNT}" None]]]]] [] in
  ∃ p token,
    in_document p doc
    ∧ matching_form "AMOUNT" (text p) = Some token
    ∧ replace_in_paragraph p "AMOUNT" (VStr "$4,200")
      = write_text p (Str.replace token "$4,200" (text p)).
Proof.
  intros doc. apply (scanned_names_are_replaceable doc "AMOUNT" (VStr "$4,200")).
  vm_compute. apply list_elem_of_here.
Defined.

(** ** Substitution: what it keeps *)

Lemma map_paragraphs_ext (f g : Paragraph → Paragraph) (doc : Document) :
  (∀ p, in_document p doc → f p = g p) →
  map_paragraphs f doc = map_paragraphs g doc.
Proof.
  intros Hfg. unfold map_paragraphs. f_equal.
  - apply list_fmap_ext. intros i p Hp. apply Hfg. left.
    by eapply list_elem_of_lookup_2.
  - apply list_fmap_ext. intros i t Ht. f_equal.
    apply list_fmap_ext. intros j r Hr. f_equal.
    apply list_fmap_ext. intros k c Hc. f_equal.
    apply list_fmap_ext. intros l p Hp. apply Hfg. right. left.
    exists t, r, c. repeat split; by eapply list_elem_of_lookup_2.
  - apply list_fmap_ext. intros i s Hs.
    f_equal; apply list_fmap_ext; intros j p Hp; apply Hfg; right; right;
      exists s; (split; [by eapply list_elem_of_lookup_2|]).
    + left. by eapply list_elem_of_lookup_2.
    + right. by eapply list_elem_of_lookup_2.
Qed.

Lemma map_paragraphs_compose (f g : Paragraph → Paragraph) (doc : Document) :
  map_paragraphs f (map_paragraphs g doc) = map_paragraphs (f ∘ g) doc.
Proof.
  unfold map_paragraphs. cbn [paragraphs tables sections]. f_equal.
  - by rewrite <- list_fmap_compose.
  - rewrite <- list_fmap_compose. apply list_fmap_ext. intros _ t _.
    cbn [compose rows]. f_equal.
    rewrite <- list_fmap_compose. apply list_fmap_ext. intros _ r _.
    cbn [compose cells]. f_equal.
    rewrite <- list_fmap_compose. apply list_fmap_ext. intros _ c _.
    cbn [compose cell_paragraphs]. f_equal. by rewrite <- list_fmap_compose.
  - rewrite <- list_fmap_compose. apply list_fmap_ext. intros _ s _.
    cbn [compose header footer]. by rewrite <- !list_fmap_compose.
Qed.

Lemma fmap_same {A} (f : A → A) (l : list A) :
  (∀ x, f x = x) → f <$> l = l.
Proof.
  intros Hf. induction l as [|x l IH]; [done|]. by rewrite fmap_cons, Hf, IH.
Qed.

Lemma map_paragraphs_id (doc : Document) : map_paragraphs (λ p, p) doc = doc.
Proof.
  destruct doc as [ps ts ss]. unfold map_paragraphs.
  cbn [paragraphs tables sections]. f_equal.
  - by apply fmap_same.
  - apply fmap_same. intros [rs]. cbn [rows]. f_equal.
    apply fmap_same. intros [cs]. cbn [cells]. f_equal.
    apply fmap_same. intros [qs]. cbn [cell_paragraphs]. f_equal.
    by apply fmap_same.
  - apply fmap_same. intros [h f]. cbn [header footer].
    by rewrite !fmap_same.
Qed.

Lemma replace_field_map doc name value :
  replace_field doc name value
  = map_paragraphs (λ p, replace_in_paragraph p name value) doc.
Proof. reflexivity. Qed.

Lemma same_formatting_refl p : same_formatting p p.
Proof. by left. Qed.

Lemma same_formatting_trans p q r :
  same_formatting p q → same_formatting q r → same_formatting p r.
Proof.
  intros [Hpq|[Hp [t Hq]]] [Hqr|[Hq' [t' Hr]]].
  - left. by rewrite Hqr.
  - right. split; [|by exists t'].
    rewrite Hq' in Hpq. symmetry in Hpq. by apply fmap_nil_inv in Hpq.
  - right. split; [done|]. rewrite Hq in Hqr. cbn in Hqr.
    destruct (runs r) as [|[t' format] [|? ?]]; try discriminate Hqr.
    cbn in Hqr. injection Hqr as ->. by exists t'.
  - rewrite Hq in Hq'. discriminate Hq'.
Qed.

(** The substitution of one field in one paragraph keeps the formatting of
    the runs, whether a token occurs or not, and whether the paragraph has
    runs or not. *)
Lemma same_formatting_replace_in_paragraph p name value :
  same_formatting p (replace_in_paragraph p name value).
Proof.
  rewrite replace_in_paragraph_matching.
  destruct (matching_form name (text p)) as [token|];
    [|apply same_formatting_refl].
  unfold same_formatting. rewrite runs_write_text.
  destruct (runs p) as [|first others].
  - right. split; [done|]. by eexists.
  - left. rewrite !fmap_cons. f_equal.
    rewrite <- list_fmap_compose. by apply list_fmap_ext.
Qed.

(** X4: the substitution keeps the layout of the document and the
    formatting of its runs: the filled document is the document with every
    paragraph, at its place in the body, in the table cells and in the
    headers and footers, replaced by a paragraph that has as many runs, with
    the same formatting in the same order; only a paragraph without runs
    may have got one run, the one that [add_run] makes. *)
Theorem replace_placeholders_keeps_layout (doc : Document)
    (data : dict pyvalue) :
  ∃ f : Paragraph → Paragraph,
    replace_placeholders doc data = map_paragraphs f doc
    ∧ ∀ p, same_formatting p (f p).
Proof.
  unfold replace_placeholders. revert doc.
  induction data as [|[name value] data IH]; intros doc.
  { exists (λ p, p). split; [by rewrite map_paragraphs_id|].
    apply same_formatting_refl. }
  cbn [foldl fst snd].
  destruct (IH (replace_field doc name value)) as (f & -> & Hf).
  exists (f ∘ (λ p, replace_in_paragraph p name value)). split.
  - by rewrite replace_field_map, map_paragraphs_compose.
  - intros p. eapply same_formatting_trans;
      [apply same_formatting_replace_in_paragraph|apply Hf].
Qed.

(** X5: a mapping none of whose fields stands in a paragraph of the
    document, in any of the three forms, leaves the document as it is. *)
Theorem replace_placeholders_absent_fields (doc : Document)
    (data : dict pyvalue) :
  Forall (λ item, Forall (λ p, matching_form item.1 (text p) = None)
                         (document_paragraphs doc)) data →
  replace_placeholders doc data = doc.
Proof.
  unfold replace_placeholders.
  induction data as [|[name value] data IH]; intros Hdata; [done|].
  apply Forall_cons in Hdata as [Hname Hdata]. cbn [foldl fst snd] in *.
  assert (replace_field doc name value = doc) as ->; [|by apply IH].
  rewrite replace_field_map. rewrite <- (map_paragraphs_id doc) at 2.
  apply map_paragraphs_ext. intros p Hp%elem_of_document_paragraphs.
  rewrite Forall_forall in Hname.
  by rewrite replace_in_paragraph_matching, (Hname p Hp).
Qed.

Lemma replace_placeholders_absent_fields_witness :
  let doc := mkDocument
    [mkParagraph [mkRun "Claimant: " (Some "bold"); mkRun "[CLAIMANT]" None]]
    [] [mkSection [mkParagraph [mkRun "{policy}" None]] []] in
  replace_placeholders doc [("POLICY", VStr "P-1"); ("Claimant", VStr "Jane Doe")]
  = doc.
Proof.
  intros doc. apply replace_placeholders_absent_fields. repeat constructor.
Defined.

(** ** Substitution in well-delimited texts: one field at a time *)






(** ** The extraction of the fields: order, requests and failures *)

Lemma dict_set_fresh {V} (k : string) (v : V) (d : dict V) :
  k ∉ d.*1 → dict_set k v d = d ++ [(k, v)].
Proof.
  induction d as [|[k' v'] d IH]; [done|].
  rewrite fmap_cons. intros [Hne Hout]%not_elem_of_cons. cbn [dict_set fst] in *.
  destruct (String.eqb_spec k k') as [?|_]; [done|]. by rewrite IH.
Qed.

Lemma fill_fresh members placeholders (result : dict pyvalue) :
  NoDup (result.*1 ++ placeholders) →
  fill members placeholders result
  = result ++ ((λ ph, (ph, default not_found (members !! ph))) <$> placeholders).
Proof.
  unfold fill. revert result.
  induction placeholders as [|ph phs IH]; intros result Hnodup.
  { by rewrite app_nil_r. }
  cbn [foldl]. apply NoDup_app in Hnodup as (Hres & Hdisj & Hphs).
  apply NoDup_cons in Hphs as [Hph Hphs].
  rewrite dict_set_fresh.
  2:{ intros Hin. apply (Hdisj _ Hin), list_elem_of_here. }
  rewrite IH.
  - by rewrite <- (assoc_L (++)).
  - rewrite fmap_app. cbn [fmap list_fmap fst]. rewrite <- (assoc_L (++)).
    apply NoDup_app. split; [done|]. split; [|by apply NoDup_cons].
    intros k Hk. by apply Hdisj.
Qed.

(** X8: when the requested names are all different, the mapping that
    [extract_fields_from_text] returns lists them in the order of the
    request, whatever the order of the answer: it is in this order that
    [replace_placeholders] then goes through the fields. *)
Theorem extract_fields_order (w : Collaborators) (placeholders : list string)
    (extracted_text api_key : string) (tr : list event) (result : dict pyvalue) :
  NoDup placeholders →
  run (extract_fields_from_text w placeholders extracted_text api_key)
  = (tr, inr result) →
  result.*1 = placeholders.
Proof.
  intros Hnodup. unfold run. rewrite extract_fields_from_text_run. cbv zeta.
  destruct (openrouter w _ api_key) as [msg|msg|content]; [done..|].
  destruct (json_loads w (clean_response content)) as [msg|[members|type_name]];
    [done| |].
  - intros [= _ <-]. rewrite fill_fresh by done. cbn [app].
    rewrite <- list_fmap_compose. by apply fmap_same.
  - destruct placeholders; [by intros [= _ <-]|done].
Qed.

Lemma extract_fields_order_witness :
  let w := mkCollaborators (λ _, inl "") (λ _, inl "")
             (λ _ _, Content "{}")
             (λ _, inr (JObject {[ "Date" := VStr "2025-01-15";
                                   "AMOUNT" := VStr "$4,200" ]})) in
  ∃ result,
    run (extract_fields_from_text w ["AMOUNT"; "CLAIMANT"; "Date"] "report" "key")
    = ([CallApi (prompt_of ["AMOUNT"; "CLAIMANT"; "Date"] "report")], inr result)
    ∧ result.*1 = ["AMOUNT"; "CLAIMANT"; "Date"].
Proof.
  intros w. eexists. split; [vm_compute; reflexivity|].
  eapply (extract_fields_order w ["AMOUNT"; "CLAIMANT"; "Date"] "report" "key").
  - apply (bool_decide_unpack _). vm_compute. exact I.
  - vm_compute. reflexivity.
Defined.

(** X9: [extract_fields_from_text] sends one request, whatever comes of
    it, and never a second one; when it does not return a mapping it raises
    an [Exception] whose message starts with [Error during field
    extraction: ] or with [Failed to parse LLM response as JSON: ]. *)
Theorem extract_fields_one_request (w : Collaborators)
    (placeholders : list string) (extracted_text api_key : string) :
  let out := run (extract_fields_from_text w placeholders extracted_text api_key) in
  out.1 = [CallApi (prompt_of placeholders extracted_text)]
  ∧ ((∃ result, out.2 = inr result)
     ∨ ∃ msg, out.2 = inl (Exception msg)
         ∧ (String.prefix "Error during field extraction: " msg = true
            ∨ String.prefix "Failed to parse LLM response as JSON: " msg = true)).
Proof.
  intros out. subst out. unfold run. rewrite extract_fields_from_text_run.
  cbv zeta.
  destruct (openrouter w _ api_key) as [msg|msg|content].
  - split; [done|]. right. eexists. split; [done|]. left. apply prefix_app.
  - split; [done|]. right. eexists. split; [done|]. left. apply prefix_app.
  - destruct (json_loads w (clean_response content))
      as [msg|[members|type_name]].
    + split; [done|]. right. eexists. split; [done|]. right. apply prefix_app.
    + split; [done|]. left. by eexists.
    + destruct placeholders.
      * split; [done|]. left. by eexists.
      * split; [done|]. right. eexists. split; [done|]. left. apply prefix_app.
Qed.

(** *** The answer and its code fence *)

Lemma rev_app_spec (s acc : string) :
  String.rev_app s acc = String.rev s +:+ acc.
Proof.
  unfold String.rev. revert acc. induction s as [|c s IH]; intros acc; [done|].
  cbn [String.rev_app]. rewrite (IH (String c acc)), (IH (String c EmptyString)).
  by autorewrite with str.
Qed.

Lemma rev_cons c (s : string) :
  String.rev (String c s) = String.rev s +:+ String c EmptyString.
Proof. unfold String.rev at 1. cbn [String.rev_app]. apply rev_app_spec. Qed.

Lemma rev_app_distr (a b : string) :
  String.rev (a +:+ b) = String.rev b +:+ String.rev a.
Proof.
  induction a as [|c a IH]; [by rewrite app_empty_l, app_empty_r|].
  by rewrite app_cons, !rev_cons, IH, app_assoc_str.
Qed.

Lemma rev_involutive (s : string) : String.rev (String.rev s) = s.
Proof.
  induction s as [|c s IH]; [done|]. by rewrite rev_cons, rev_app_distr, IH.
Qed.

Lemma lstrip_solid s : starts_solid s → Str.lstrip s = s.
Proof. destruct s as [|c s]; [done|]. cbn. by intros ->. Qed.

Lemma strip_trimmed s : trimmed s → Str.strip s = s.
Proof.
  intros [Hs Hr]. unfold Str.strip.
  by rewrite (lstrip_solid s), (lstrip_solid (String.rev s)), rev_involutive.
Qed.

Lemma starts_solid_app s t : starts_solid s → starts_solid (s +:+ t).
Proof. by destruct s. Qed.

(** White space around a trimmed text is stripped. *)
Lemma strip_between_newlines s : trimmed s → Str.strip (nl +:+ s +:+ nl) = s.
Proof.
  intros [Hs Hr]. unfold Str.strip.
  change (Str.lstrip (nl +:+ s +:+ nl)) with (Str.lstrip (s +:+ nl)).
  rewrite (lstrip_solid (s +:+ nl)) by by apply starts_solid_app.
  rewrite rev_app_distr.
  change (Str.lstrip (String.rev nl +:+ String.rev s))
    with (Str.lstrip (String.rev s)).
  by rewrite lstrip_solid, rev_involutive.
Qed.

Lemma endswith_app p s : Str.endswith p (s +:+ p) = true.
Proof. unfold Str.endswith. rewrite rev_app_distr. apply prefix_app. Qed.

Lemma drop_end_app p s : Str.drop_end (String.length p) (s +:+ p) = s.
Proof.
  unfold Str.drop_end. rewrite rev_app_distr.
  replace (String.length p) with (String.length (String.rev p)).
  - by rewrite drop_app_length, rev_involutive.
  - clear s. induction p as [|c p IH]; [done|].
    rewrite rev_cons, length_app_str, IH. simpl. lia.
Qed.

Lemma prefix_app_inv (a b s : string) :
  String.prefix (a +:+ b) s = true → String.prefix a s = true.
Proof.
  intros [rest ->]%prefix_split. rewrite app_assoc_str. apply prefix_app.
Qed.

Lemma drop_end_fence (s : string) : Str.drop_end 3 (s +:+ "```") = s.
Proof. apply (drop_end_app "```"). Qed.

Lemma strip_fenced (fence inner : string) :
  starts_solid fence →
  Str.strip (fence +:+ inner +:+ "```") = fence +:+ inner +:+ "```".
Proof.
  intros Hfence. apply strip_trimmed. split; [by apply starts_solid_app|].
  by rewrite <- app_assoc_str, rev_app_distr.
Qed.

Lemma clean_inner (body : string) :
  trimmed body →
  clean_response ("```json" +:+ (nl +:+ body +:+ nl) +:+ "```") = body
  ∧ clean_response ("```" +:+ (nl +:+ body +:+ nl) +:+ "```") = body.
Proof.
  intros Hbody. unfold clean_response. cbv zeta.
  rewrite !strip_fenced by done. split.
  - change (Str.startswith "```json" ("```json" +:+ (nl +:+ body +:+ nl) +:+ "```"))
      with true.
    cbv iota.
    change (Str.drop 7 ("```json" +:+ (nl +:+ body +:+ nl) +:+ "```"))
      with ((nl +:+ body +:+ nl) +:+ "```").
    change (Str.startswith "```" ((nl +:+ body +:+ nl) +:+ "```")) with false.
    cbv iota.
    rewrite endswith_app, drop_end_fence.
    by apply strip_between_newlines.
  - change (Str.startswith "```json" ("```" +:+ (nl +:+ body +:+ nl) +:+ "```"))
      with false.
    cbv iota.
    change (Str.startswith "```" ("```" +:+ (nl +:+ body +:+ nl) +:+ "```"))
      with true.
    cbv iota.
    change (Str.drop 3 ("```" +:+ (nl +:+ body +:+ nl) +:+ "```"))
      with ((nl +:+ body +:+ nl) +:+ "```").
    rewrite endswith_app, drop_end_fence.
    by apply strip_between_newlines.
Qed.

(** X10: an answer that comes in a code fence, [```json] or [```], on lines
    of their own around a body without white space at its ends, is parsed as
    the body alone: when the body is a JSON object the call returns the
    mapping of that object. *)
Theorem fenced_answer_is_unwrapped (w : Collaborators)
    (placeholders : list string) (extracted_text api_key fence body : string)
    (members : gmap string pyvalue) :
  trimmed body →
  fence = "```json" ∨ fence = "```" →
  openrouter w (prompt_of placeholders extracted_text) api_key
    = Content (fence +:+ nl +:+ body +:+ nl +:+ "```") →
  json_loads w body = inr (JObject members) →
  clean_response (fence +:+ nl +:+ body +:+ nl +:+ "```") = body
  ∧ run (extract_fields_from_text w placeholders extracted_text api_key)
    = ([CallApi (prompt_of placeholders extracted_text)],
       inr (fill members placeholders [])).
Proof.
  intros Hbody Hfence Hanswer Hjson.
  assert (clean_response (fence +:+ nl +:+ body +:+ nl +:+ "```") = body)
    as Hclean.
  { destruct (clean_inner body Hbody) as [Hj Hp].
    rewrite <- !app_assoc_str in Hj, Hp. rewrite <- !app_assoc_str.
    by destruct Hfence as [->| ->]. }
  split; [done|]. unfold run. rewrite extract_fields_from_text_run. cbv zeta.
  by rewrite Hanswer, Hclean, Hjson.
Qed.

Lemma fenced_answer_is_unwrapped_witness :
  let w := mkCollaborators (λ _, inl "") (λ _, inl "")
             (λ _ _, Content ("```json" +:+ nl +:+ "{}" +:+ nl +:+ "```"))
             (λ s, if decide (s = "{}") then inr (JObject ∅)
                   else inl "Expecting value") in
  clean_response ("```json" +:+ nl +:+ "{}" +:+ nl +:+ "```") = "{}"
  ∧ run (extract_fields_from_text w ["Date"] "report" "key")
    = ([CallApi (prompt_of ["Date"] "report")], inr (fill ∅ ["Date"] [])).
Proof.
  intros w.
  apply (fenced_answer_is_unwrapped w ["Date"] "report" "key" "```json" "{}" ∅).
  - split; vm_compute; reflexivity.
  - by left.
  - reflexivity.
  - reflexivity.
Defined.

(** *** Several reports *)

Lemma dict_set_NoDup {V} (k : string) (v : V) (d : dict V) :
  NoDup d.*1 → NoDup (dict_set k v d).*1.
Proof.
  induction d as [|[k' v'] d IH]; [intros _; apply NoDup_singleton|].
  rewrite fmap_cons. intros [Hout Hnd]%NoDup_cons. cbn [dict_set fst] in *.
  destruct (String.eqb_spec k k') as [->|Hne].
  - rewrite fmap_cons. by apply NoDup_cons.
  - rewrite fmap_cons. apply NoDup_cons. split; [|by apply IH].
    cbn [fst]. rewrite dict_keys_set. intros [?|?]; [by subst|done].
Qed.

Lemma recorded_NoDup w pdf_files results :
  NoDup results.*1 → NoDup (recorded w pdf_files results).*1.
Proof.
  unfold recorded. revert results.
  induction pdf_files as [|f fs IH]; intros results Hnd; [done|].
  cbn [foldl]. by apply IH, dict_set_NoDup.
Qed.

Lemma recorded_keys w pdf_files results k :
  k ∈ (recorded w pdf_files results).*1
  ↔ k ∈ upload_name <$> pdf_files ∨ k ∈ results.*1.
Proof.
  unfold recorded. revert results.
  induction pdf_files as [|f fs IH]; intros results; cbn [foldl].
  - set_solver.
  - rewrite IH, dict_keys_set, fmap_cons. set_solver.
Qed.

Lemma recorded_get_other w pdf_files results name :
  name ∉ upload_name <$> pdf_files →
  dict_get name (recorded w pdf_files results) = dict_get name results.
Proof.
  unfold recorded. revert results.
  induction pdf_files as [|f fs IH]; intros results; [done|].
  rewrite fmap_cons. intros [Hne Hout]%not_elem_of_cons. cbn [foldl].
  by rewrite IH, dict_get_set_ne.
Qed.

Lemma recorded_app w before after results :
  recorded w (before ++ after) results
  = recorded w after (recorded w before results).
Proof. apply foldl_app. Qed.

Lemma recorded_cons w pdf_file pdf_files results :
  recorded w (pdf_file :: pdf_files) results
  = recorded w pdf_files
      (dict_set (upload_name pdf_file) (recorded_text w pdf_file) results).
Proof. reflexivity. Qed.

Lemma recorded_fresh w pdf_files results :
  NoDup (results.*1 ++ (upload_name <$> pdf_files)) →
  recorded w pdf_files results
  = results ++ ((λ f, (upload_name f, recorded_text w f)) <$> pdf_files).
Proof.
  unfold recorded. revert results.
  induction pdf_files as [|f fs IH]; intros results Hnodup.
  { by rewrite app_nil_r. }
  rewrite fmap_cons in Hnodup. cbn [foldl].
  assert (upload_name f ∉ results.*1) as Hfresh.
  { apply NoDup_app in Hnodup as (_ & Hdisj & _). intros Hin.
    apply (Hdisj _ Hin). apply elem_of_cons. by left. }
  rewrite (dict_set_fresh _ _ _ Hfresh), IH.
  - by rewrite fmap_cons, <- (assoc_L (++)).
  - by rewrite fmap_app, <- (assoc_L (++)).
Qed.

(** X11: [extract_text_from_multiple_pdfs] never raises and opens every
    report once, in the order of the list.  The dictionary that it returns
    has one key for each file name of the list; of several reports with the
    same name the last one is recorded, with its text or with the message of
    its failure. *)
Theorem multiple_pdfs_last_report_wins (w : Collaborators)
    (pdf_files : list Upload) :
  ∃ results,
    run (extract_text_from_multiple_pdfs w pdf_files)
    = (OpenPdf ∘ upload_name <$> pdf_files, inr results)
    ∧ NoDup results.*1
    ∧ (∀ name, name ∈ results.*1 ↔ name ∈ upload_name <$> pdf_files)
    ∧ (∀ before pdf_file after,
         pdf_files = before ++ pdf_file :: after →
         upload_name pdf_file ∉ upload_name <$> after →
         dict_get (upload_name pdf_file) results
         = Some (match (run (extract_text_from_pdf w pdf_file)).2 with
                 | inr txt => txt
                 | inl (Exception msg) => "Error: " +:+ msg
                 | inl StopException => EmptyString
                 end)).
Proof.
  exists (recorded w pdf_files []). unfold run.
  rewrite extract_text_from_multiple_pdfs_run. split; [done|].
  split; [apply recorded_NoDup, NoDup_nil_2|]. split.
  - intros name. rewrite recorded_keys. set_solver.
  - intros before f after -> Hlast.
    rewrite recorded_app, recorded_cons.
    rewrite (recorded_get_other _ _ _ _ Hlast), dict_get_set_eq.
    rewrite extract_text_from_pdf_run. cbn [snd]. unfold recorded_text.
    by destruct (fitz_pages w (upload_bytes f)).
Qed.

(** X12: with two or more reports of different file names the source text
    has one section for each report, in the order of the upload, each made of
    the line of the file name and of the text of the report or the message
    of its failure, with the separator between two sections; the step never
    raises. *)
Theorem source_text_in_upload_order (w : Collaborators)
    (report1 report2 : Upload) (reports : list Upload) :
  NoDup (upload_name <$> report1 :: report2 :: reports) →
  run (source_text w (report1 :: report2 :: reports))
  = (OpenPdf ∘ upload_name <$> report1 :: report2 :: reports,
     inr (Str.join combined_separator
            ((λ f, "File: " +:+ upload_name f +:+ nl +:+ recorded_text w f)
               <$> report1 :: report2 :: reports))).
Proof.
  intros Hnodup. unfold run. rewrite source_text_multiple. cbv zeta.
  rewrite (recorded_fresh w _ []) by done. unfold combine.
  rewrite !app_nil_l.
  assert (∀ l : list Upload,
    (λ item : string * string, "File: " +:+ item.1 +:+ nl +:+ item.2)
      <$> ((λ f, (upload_name f, recorded_text w f)) <$> l)
    = (λ f, "File: " +:+ upload_name f +:+ nl +:+ recorded_text w f) <$> l)
    as ->; [|done].
  intros l. induction l as [|f fs IH]; [done|]. by rewrite !fmap_cons, IH.
Qed.

Lemma source_text_in_upload_order_witness :
  let w := mkCollaborators (λ _, inl "")
             (λ bytes, if decide (bytes = "%PDF") then inr ["Jane Doe"]
                       else inl "cannot open broken document")
             (λ _ _, Content "{}") (λ _, inr (JObject ∅)) in
  let a := mkUpload "a.pdf" "%PDF" in
  let b := mkUpload "b.pdf" "" in
  let c := mkUpload "c.pdf" "%PDF" in
  run (source_text w [a; b; c])
  = ([OpenPdf "a.pdf"; OpenPdf "b.pdf"; OpenPdf "c.pdf"],
     inr (Str.join combined_separator
            ((λ f, "File: " +:+ upload_name f +:+ nl +:+ recorded_text w f)
               <$> [a; b; c]))).
Proof.
  intros w a b c. apply (source_text_in_upload_order w a b [c]).
  apply (bool_decide_unpack _). vm_compute. exact I.
Defined.

(** *** The test request and the pages of a report *)

(** X13: [validate_api_key] never raises, whatever the request does, and
    sends exactly one request, with the test prompt; its answer is [True]
    exactly when the request gives a content that is not empty. *)
Theorem validate_api_key_never_raises (w : Collaborators) (api_key : string) :
  ∃ valid,
    run (validate_api_key w api_key) = ([CallApi test_prompt], inr valid)
    ∧ (valid = true
       ↔ ∃ content, openrouter w test_prompt api_key = Content content
                    ∧ content ≠ EmptyString).
Proof.
  unfold run, validate_api_key, try_except_all. rewrite bind_run.
  unfold call_openrouter_api. rewrite bind_run. cbv [emit]. cbn [app].
  destruct (openrouter w test_prompt api_key) as [msg|msg|content].
  - exists false. split; [done|]. split; [done|]. by intros (? & ? & _).
  - exists false. split; [done|]. split; [done|]. by intros (? & ? & _).
  - exists (bool_decide (0 < String.length content)). split; [done|].
    rewrite bool_decide_eq_true. split.
    + intros Hlen. exists content. split; [done|]. intros ->. simpl in Hlen. lia.
    + intros (? & [= <-] & Hne). destruct content; [done|]. simpl. lia.
Qed.

Lemma contains_refl (s : string) : Str.contains s s = true.
Proof.
  apply contains_prefix. rewrite <- (app_empty_r s) at 2. apply prefix_app.
Qed.

Lemma contains_inside (a s b : string) : Str.contains s (a +:+ s +:+ b) = true.
Proof. apply contains_app_r, contains_app_l, contains_refl. Qed.

(** X15: [extract_text_from_pdf] drops no page: the text that it returns
    has the header of every page, with the number of the page counted from
    one, followed by the text of the page, or by the note on image-based
    pages when the text of the page is empty or white space. *)
Theorem every_page_is_in_the_text (w : Collaborators) (pdf_file : Upload)
    (pages : list string) (page_num : nat) (txt : string) :
  fitz_pages w (upload_bytes pdf_file) = inr pages →
  pages !! page_num = Some txt →
  ∃ out,
    run (extract_text_from_pdf w pdf_file)
    = ([OpenPdf (upload_name pdf_file)], inr out)
    ∧ Str.contains
        ("--- Page " +:+ pretty (page_num + 1) +:+ " ---" +:+ nl
         +:+ (if decide (Str.strip txt = EmptyString)
              then "[Image-based page - OCR needed]" else txt))
        out = true.
Proof.
  intros Hpages Hpage. eexists. unfold run.
  rewrite extract_text_from_pdf_run, Hpages. split; [done|].
  apply (contains_join _ _ _ (page_entry page_num txt)).
  - apply list_elem_of_lookup. exists page_num.
    by rewrite list_lookup_imap, Hpage.
  - unfold page_entry. case_decide; apply contains_refl.
Qed.

Lemma every_page_is_in_the_text_witness :
  let w := mkCollaborators (λ _, inl "") (λ _, inr ["Jane Doe"; "  "])
             (λ _ _, Content "{}") (λ _, inr (JObject ∅)) in
  ∃ out,
    run (extract_text_from_pdf w (mkUpload "a.pdf" "%PDF"))
    = ([OpenPdf "a.pdf"], inr out)
    ∧ Str.contains
        ("--- Page " +:+ pretty (1 + 1) +:+ " ---" +:+ nl
         +:+ (if decide (Str.strip "  " = EmptyString)
              then "[Image-based page - OCR needed]" else "  "))
        out = true.
Proof.
  intros w.
  apply (every_page_is_in_the_text w (mkUpload "a.pdf" "%PDF")
           ["Jane Doe"; "  "] 1 "  "); reflexivity.
Defined.

(** X16: the prompt of [extract_fields_from_text] carries the whole text of
    the reports, not a part of it, and the name of every field that is
    asked for. *)
Theorem prompt_carries_text_and_fields (placeholders : list string)
    (extracted_text : string) :
  Str.contains extracted_text (prompt_of placeholders extracted_text) = true
  ∧ ∀ placeholder, placeholder ∈ placeholders →
      Str.contains placeholder (prompt_of placeholders extracted_text) = true.
Proof.
  unfold prompt_of. split.
  - apply (contains_join _ _ _ extracted_text); [|apply contains_refl].
    do 8 apply list_elem_of_further. apply list_elem_of_here.
  - intros ph Hph.
    apply (contains_join _ _ _ (Str.join ", " placeholders)).
    + do 3 apply list_elem_of_further. apply list_elem_of_here.
    + by apply (contains_join _ _ _ ph); [|apply contains_refl].
Qed.

(** *** The run of the pipeline *)

Lemma downloads_app (tr1 tr2 : list event) :
  downloads (tr1 ++ tr2) = downloads tr1 ++ downloads tr2.
Proof. apply omap_app. Qed.

Lemma api_calls_app (tr1 tr2 : list event) :
  api_calls (tr1 ++ tr2) = api_calls tr1 ++ api_calls tr2.
Proof. apply omap_app. Qed.

Lemma api_calls_opened (pdf_files : list Upload) :
  api_calls (OpenPdf ∘ upload_name <$> pdf_files) = [].
Proof.
  induction pdf_files as [|f fs IH]; [reflexivity|]. rewrite fmap_cons. exact IH.
Qed.

(** The step of the source text opens the reports and does nothing else. *)
Lemma source_text_opens w report_files :
  (run (source_text w report_files)).1 = OpenPdf ∘ upload_name <$> report_files.
Proof.
  unfold run. destruct report_files as [|r1 [|r2 rest]].
  - unfold source_text. by rewrite bind_run, extract_text_from_multiple_pdfs_run.
  - by rewrite source_text_single, extract_text_from_pdf_run.
  - by rewrite source_text_multiple.
Qed.

(** The outcomes of a run: either no document is offered, or every step
    has succeeded and the trace is the one of the whole pipeline. *)
Lemma process_outcomes w api_key template_file report_files :
  let out := run (process w api_key template_file report_files) in
  (downloads out.1 = [] ∧ length (api_calls out.1) ≤ 1
   ∧ (out.2 = inr () ∨ out.2 = inl StopException))
  ∨ (∃ template doc extracted_text content members,
       api_key ≠ EmptyString ∧ template_file = Some template
       ∧ report_files ≠ []
       ∧ docx_open w (upload_bytes template) = inr doc
       ∧ find_placeholders doc ≠ []
       ∧ (run (source_text w report_files)).2 = inr extracted_text
       ∧ openrouter w (prompt_of (find_placeholders doc) extracted_text) api_key
         = Content content
       ∧ json_loads w (clean_response content) = inr (JObject members)
       ∧ out = ([Step 1; OpenDocx (upload_bytes template); Step 2]
                ++ (OpenPdf ∘ upload_name <$> report_files)
                ++ [Step 3;
                    CallApi (prompt_of (find_placeholders doc) extracted_text);
                    Step 4;
                    OfferDownload
                      (replace_placeholders doc
                         (fill members (find_placeholders doc) []))],
                inr ())).
Proof.
  intros out. subst out.
  destruct (decide (api_key = EmptyString)) as [Hkey|Hkey].
  { left. unfold run, process. rewrite decide_True by done.
    destruct template_file, report_files; cbn; auto. }
  destruct template_file as [template|].
  2: { left. unfold run, process. rewrite decide_False by done.
       destruct report_files; cbn; auto. }
  destruct (decide (report_files = [])) as [->|Hreports].
  { left. unfold run, process. rewrite decide_False by done. cbn. auto. }
  rewrite process_run, pipeline_run by done. cbv zeta. cbn [app].
  destruct (docx_open w (upload_bytes template)) as [msg|doc] eqn:Hopen.
  { left. cbn. auto. }
  destruct (find_placeholders doc) as [|ph phs] eqn:Hfp.
  { left. cbn. auto. }
  rewrite source_text_frame, source_text_opens.
  destruct (run (source_text w report_files)).2 as [e|extracted_text] eqn:Hsrc.
  { left. cbn [fst snd].
    destruct e as [msg|]; cbn [fst snd];
      rewrite ?downloads_app, ?api_calls_app, downloads_opened, api_calls_opened;
      cbn; auto. }
  cbn [fst snd]. rewrite extract_fields_from_text_run. cbv zeta.
  destruct (openrouter w (prompt_of (ph :: phs) extracted_text) api_key)
    as [msg|msg|content] eqn:Hcall.
  1, 2: left; cbn [fst snd];
    rewrite ?downloads_app, ?api_calls_app, downloads_opened, api_calls_opened;
    cbn; auto.
  destruct (json_loads w (clean_response content))
    as [msg|[members|type_name]] eqn:Hjson.
  1, 3: left; cbn [fst snd];
    rewrite ?downloads_app, ?api_calls_app, downloads_opened, api_calls_opened;
    cbn; auto.
  right. exists template, doc, extracted_text, content, members.
  rewrite Hfp. repeat (split; [done|]).
  by rewrite <- !(assoc_L (++)).
Qed.

(** X17: when an input is missing, the run shows the error of each missing
    input, in the order key, template, reports, and does nothing else: no
    file is opened, no request is sent and no document is offered. *)
Theorem missing_inputs_are_reported (w : Collaborators) (api_key : string)
    (template_file : option Upload) (report_files : list Upload) :
  api_key = EmptyString ∨ template_file = None ∨ report_files = [] →
  ∃ errors,
    run (process w api_key template_file report_files)
    = (UiError <$> errors, inr ())
    ∧ errors ≠ []
    ∧ errors `sublist_of` [ApiKeyRequired; TemplateRequired; ReportsRequired]
    ∧ (ApiKeyRequired ∈ errors ↔ api_key = EmptyString)
    ∧ (TemplateRequired ∈ errors ↔ template_file = None)
    ∧ (ReportsRequired ∈ errors ↔ report_files = []).
Proof.
  intros Hmissing. unfold run, process.
  exists ((if decide (api_key = EmptyString) then [ApiKeyRequired] else [])
          ++ match template_file with None => [TemplateRequired] | Some _ => [] end
          ++ match report_files with [] => [ReportsRequired] | _ :: _ => [] end).
  destruct (decide (api_key = EmptyString)) as [Hkey|Hkey],
    template_file as [template|], report_files as [|report reports];
    try (exfalso; by destruct Hmissing as [?|[?|?]]);
    (split; [reflexivity|]); (split; [done|]);
    (split; [by repeat constructor|]);
    cbn [app]; rewrite ?elem_of_cons, ?elem_of_nil; intuition congruence.
Qed.

Lemma missing_inputs_are_reported_witness :
  let w := mkCollaborators (λ _, inl "") (λ _, inl "")
             (λ _ _, Content "{}") (λ _, inr (JObject ∅)) in
  ∃ errors,
    run (process w "" (Some (mkUpload "form.docx" "PK")) [])
    = (UiError <$> errors, inr ())
    ∧ errors ≠ []
    ∧ errors `sublist_of` [ApiKeyRequired; TemplateRequired; ReportsRequired]
    ∧ (ApiKeyRequired ∈ errors ↔ "" = EmptyString)
    ∧ (TemplateRequired ∈ errors ↔ Some (mkUpload "form.docx" "PK") = None)
    ∧ (ReportsRequired ∈ errors ↔ @nil Upload = []).
Proof.
  intros w.
  apply (missing_inputs_are_reported w "" (Some (mkUpload "form.docx" "PK")) []).
  by left.
Defined.

(** A document is offered at the end of a trace that offers no other. *)
Lemma offer_is_last (quiet before after : list event) (offered last : Document) :
  downloads quiet = [] →
  before ++ OfferDownload offered :: after = quiet ++ [OfferDownload last] →
  before = quiet ∧ after = [].
Proof.
  intros Hquiet Heq. destruct after as [|ev after _] using rev_ind.
  - by apply app_inj_tail in Heq as [-> _].
  - rewrite app_comm_cons, (assoc_L (++)) in Heq.
    apply app_inj_tail in Heq as [<- _].
    rewrite downloads_app in Hquiet. by apply app_eq_nil in Hquiet as [_ ?].
Qed.

(** X18: whatever the inputs and the collaborators do, a run ends without an
    [Exception] for the caller: it ends normally or by [st.stop()]; it sends
    one request to the extraction collaborator at most and offers one
    document at most; and when it offers a document, the offer is the last
    event of the run, the request was sent before it, and the run ends
    normally. *)
Theorem process_never_raises (w : Collaborators) (api_key : string)
    (template_file : option Upload) (report_files : list Upload) :
  let out := run (process w api_key template_file report_files) in
  (out.2 = inr () ∨ out.2 = inl StopException)
  ∧ length (api_calls out.1) ≤ 1
  ∧ length (downloads out.1) ≤ 1
  ∧ (∀ before offered after,
       out.1 = before ++ OfferDownload offered :: after →
       length (api_calls before) = 1 ∧ after = [] ∧ out.2 = inr ()).
Proof.
  intros out.
  destruct (process_outcomes w api_key template_file report_files)
    as [(Hnone & Hcalls & Hend)|
        (template & doc & text & content & members & _ & _ & _ & _ & _ & _ & _
         & _ & Hout)]; fold out in Hnone, Hcalls, Hend || fold out in Hout.
  - rewrite Hnone. split; [done|]. split; [done|]. split; [simpl; lia|].
    intros before offered after Htrace. rewrite Htrace, downloads_app in Hnone.
    by apply app_eq_nil in Hnone as [_ ?].
  - rewrite Hout. cbn [fst snd].
    rewrite !downloads_app, !api_calls_app, downloads_opened, api_calls_opened.
    split; [by left|]. split; [cbn; lia|]. split; [cbn; lia|].
    intros before offered after Htrace.
    change [Step 3;
            CallApi (prompt_of (find_placeholders doc) text); Step 4;
            OfferDownload
              (replace_placeholders doc (fill members (find_placeholders doc) []))]
      with ([Step 3; CallApi (prompt_of (find_placeholders doc) text); Step 4]
            ++ [OfferDownload
                  (replace_placeholders doc
                     (fill members (find_placeholders doc) []))]) in Htrace.
    rewrite !(assoc_L (++)) in Htrace. symmetry in Htrace.
    apply offer_is_last in Htrace as [-> ->].
    + rewrite !api_calls_app, api_calls_opened. by cbn.
    + by rewrite !downloads_app, downloads_opened.
Qed.

(** X19: a document that a run offers for download is the template, filled
    by [replace_placeholders] with the mapping that the answer of the
    extraction collaborator gives for the scanned fields: the key, the
    template and the reports were given, the template was loaded and has
    placeholders, the source text was extracted, and the one request of the
    run, made of the scanned fields and that text, was answered by a JSON
    object. *)
Theorem offered_document_is_filled_template (w : Collaborators)
    (api_key : string) (template_file : option Upload)
    (report_files : list Upload) (offered : Document) :
  let out := run (process w api_key template_file report_files) in
  offered ∈ downloads out.1 →
  ∃ template doc extracted_text content members,
    api_key ≠ EmptyString ∧ template_file = Some template ∧ report_files ≠ []
    ∧ docx_open w (upload_bytes template) = inr doc
    ∧ find_placeholders doc ≠ []
    ∧ (run (source_text w report_files)).2 = inr extracted_text
    ∧ openrouter w (prompt_of (find_placeholders doc) extracted_text) api_key
      = Content content
    ∧ json_loads w (clean_response content) = inr (JObject members)
    ∧ api_calls out.1 = [prompt_of (find_placeholders doc) extracted_text]
    ∧ offered = replace_placeholders doc (fill members (find_placeholders doc) []).
Proof.
  intros out Hoffered.
  destruct (process_outcomes w api_key template_file report_files)
    as [(Hnone & _)|
        (template & doc & text & content & members & Hkey & Htemplate
         & Hreports & Hopen & Hfp & Hsrc & Hcall & Hjson & Hout)];
    fold out in Hnone || fold out in Hout.
  { rewrite Hnone in Hoffered. by apply elem_of_nil in Hoffered. }
  exists template, doc, text, content, members.
  repeat (split; [done|]).
  rewrite Hout in Hoffered |- *. cbn [fst] in *.
  rewrite !downloads_app, downloads_opened in Hoffered.
  rewrite !api_calls_app, api_calls_opened.
  split; [done|]. cbn in Hoffered.
  by apply list_elem_of_singleton in Hoffered.
Qed.

Lemma offered_document_is_filled_template_witness :
  let doc := mkDocument [mkParagraph [mkRun "Name: [NAME]" None]] [] [] in
  let filled := mkDocument [mkParagraph [mkRun "Name: Jane Doe" None]] [] [] in
  let w := mkCollaborators (λ _, inr doc) (λ _, inr ["Jane Doe"])
             (λ _ _, Content "{}")
             (λ _, inr (JObject {[ "NAME" := VStr "Jane Doe" ]})) in
  let template := mkUpload "form.docx" "PK" in
  let report := mkUpload "a.pdf" "%PDF" in
  filled ∈ downloads (run (process w "key" (Some template) [report])).1
  ∧ ∃ members,
      json_loads w (clean_response "{}") = inr (JObject members)
      ∧ filled = replace_placeholders doc (fill members (find_placeholders doc) []).
Proof.
  intros doc filled w template report.
  assert (filled ∈ downloads (run (process w "key" (Some template) [report])).1)
    as Hoffered.
  { vm_compute. apply list_elem_of_here. }
  split; [exact Hoffered|].
  destruct (offered_document_is_filled_template w "key" (Some template) [report]
              filled Hoffered)
    as (template' & doc' & text & content & members & _ & _ & _ & Hopen & _ & _
        & Hcall & Hjson & _ & Hfilled).
  injection Hopen as <-. injection Hcall as <-.
  exists members. split; [exact Hjson|exact Hfilled].
Defined.
